(** * events-api: authentication, session and event queries

    A shallow embedding of the two deployments of the events backend:
    [src/api.js] (serverless, refresh tokens tracked in a Redis set) and
    the standalone server (no session tracking, password-reset flow).
    The collaborators the handlers call (the [jsonwebtoken] library, the
    relational store, Redis) are modelled by what they return; the
    handlers themselves follow the source statement by statement. *)

From stdpp Require Import base numbers strings list gmap.

Local Open Scope Z_scope.

(** ** JavaScript values *)

(** The object an [async] function hands back to its caller, by the way
    it settles. [await] reads a fulfilled value and throws on a rejected
    one; a handler that throws is [None] (no response is sent). *)
Inductive Promise (A : Type) : Type :=
| Fulfilled (a : A)
| Rejected.
Arguments Fulfilled {A} a.
Arguments Rejected {A}.

Definition await {A : Type} (p : Promise A) : option A :=
  match p with
  | Fulfilled a => Some a
  | Rejected => None
  end.

(** [!p] on a promise: every object is truthy, however it settles. *)
Definition truthy_promise {A : Type} (p : Promise A) : bool := true.

(** A decoded token payload as [jwt.verify] returns it. *)
Record claims : Type := Claims {
  tok_id : Z;
  tok_email : string;
  iat : Z;
  exp : option Z
}.

(** A JavaScript string as far as the handlers can tell strings apart:
    plain text that is not a signed token, or the compact serialisation of
    a token with the given payload signed (HS256) under [key]. The
    signature is symbolic: it checks under a secret exactly when that
    secret is the signing key. *)
Inductive text : Type :=
| Plain (s : string)
| Jwt (payload : claims) (key : string).

(** A possibly missing string field ([undefined] is [None]). *)
Definition truthy_text (t : option text) : bool :=
  match t with
  | None => false
  | Some (Plain s) => bool_decide (s ≠ "")
  | Some (Jwt _ _) => true
  end.

Definition truthy_string (s : option string) : bool :=
  match s with
  | None => false
  | Some s => bool_decide (s ≠ "")
  end.

(** A field that is either [undefined] or a non-empty value. *)
Definition truthy {A : Type} (o : option A) : bool :=
  match o with None => false | Some _ => true end.

#[global] Instance claims_eq_dec : EqDecision claims.
Proof. solve_decision. Defined.

#[global] Instance text_eq_dec : EqDecision text.
Proof. solve_decision. Defined.

Definition text_to_sum (t : text) : string + (Z * string * Z * option Z * string) :=
  match t with
  | Plain s => inl s
  | Jwt p k => inr (tok_id p, tok_email p, iat p, exp p, k)
  end.

Definition text_of_sum (x : string + (Z * string * Z * option Z * string)) : text :=
  match x with
  | inl s => Plain s
  | inr (i, m, t, e, k) => Jwt (Claims i m t e) k
  end.

#[global] Instance text_countable : Countable text.
Proof.
  apply (inj_countable' text_to_sum text_of_sum).
  intros [s | [i m t e] k]; reflexivity.
Defined.

(** ** jsonwebtoken *)

(** [jwt.sign({id, email}, secret, {expiresIn})] at clock [now] (seconds):
    the library stamps [iat] and, when [expiresIn] is given, [exp]. *)
Definition jwt_sign (uid : Z) (mail : string) (secret : string)
    (expiresIn : option Z) (now : Z) : text :=
  Jwt {| tok_id := uid; tok_email := mail; iat := now;
         exp := (λ d, now + d) <$> expiresIn |} secret.

(** [jwt.verify(token, secret)] at clock [now]: [None] is the error case
    (missing or malformed token, bad signature, [now >= exp]). *)
Definition jwt_verify (token : option text) (secret : string) (now : Z)
    : option claims :=
  match token with
  | Some (Jwt p k) =>
      if bool_decide (k = secret) then
        match exp p with
        | Some e => if bool_decide (e ≤ now) then None else Some p
        | None => Some p
        end
      else None
  | _ => None
  end.

(** [process.env] *)
Record environment : Type := {
  ACCESS_TOKEN_SECRET : string;
  REFRESH_TOKEN_SECRET : string;
  RESET_TOKEN_SECRET : string
}.

(** ** Relational store *)

Record user : Type := {
  u_id : Z;
  u_email : string;
  u_password : string;
  first_name : string;
  last_name : string;
  phone_number : string
}.

(** An event row. Dates are the stored DATETIME values in milliseconds
    since 1970-01-01 00:00:00; [None] is SQL NULL. *)
Record event : Type := {
  e_id : Z;
  name : option string;
  description : option string;
  location : option string;
  from_date : option Z;
  to_date : option Z;
  contact : option string;
  user_id : Z
}.

(** The body of POST/PUT /events; a missing or empty field is [None]. *)
Record event_body : Type := {
  b_name : option string;
  b_description : option string;
  b_location : option string;
  b_from_date : option Z;
  b_to_date : option Z;
  b_contact : option string
}.

Record database : Type := {
  users : list user;
  events : list event;
  next_user_id : Z;
  next_event_id : Z
}.

#[global] Instance user_eq_dec : EqDecision user.
Proof. solve_decision. Defined.

#[global] Instance event_eq_dec : EqDecision event.
Proof. solve_decision. Defined.

(** The {id, email} object the token issuers read. *)
Record identity : Type := {
  id : Z;
  email : string
}.

Definition identity_of_claims (c : claims) : identity :=
  {| id := tok_id c; email := tok_email c |}.

(** ** HTTP *)

Inductive json : Type :=
| JNone
| JString (s : string)
| JMessage (message : string)
| JTokens (accessToken refreshToken : text)
| JSession (uid : Z) (mail : string) (accessToken refreshToken : text)
| JEvents (rows : list event)
| JEvent (row : event)
| JId (insertId : Z).

Record response : Type := {
  status : Z;
  body : json
}.

(** The value of the Authorization header, given by its fields between
    single spaces, that is, by [authHeader.split(" ")]. The empty string
    is [[Plain ""]] (or [[]]); [None] is a request without the header. *)
Definition header_value : Type := list text.

Definition truthy_header (h : option header_value) : bool :=
  match h with
  | None | Some [] | Some [Plain ""] => false
  | Some _ => true
  end.

(** Outcome of a middleware: it answers itself, or calls [next()] with
    [req.user] set. *)
Inductive gate : Type :=
| Reject (r : response)
| Next (user : claims).

(** ** express-rate-limit *)

(** The options both limiters are built with. *)
Record rate_limit_options : Type := {
  windowMs : Z;
  limit : Z;
  message : string
}.

Definition postLimiter : rate_limit_options :=
  {| windowMs := 5000; limit := 20;
     message := "Too many requests from this IP, please try again later." |}.

Definition secureLimiter : rate_limit_options :=
  {| windowMs := 15 * 60 * 1000; limit := 20;
     message := "Too many requests from this IP, please try again later." |}.

(** What a limiter's memory store keeps for a client address: the hits
    counted in the client's current window and the time, in milliseconds,
    at which that window ends. *)
Record client_window : Type := {
  totalHits : Z;
  resetTime : Z
}.

(** The store counts the request: a client without a window, or whose
    window has ended, starts a new one. *)
Definition increment (options : rate_limit_options) (key : string)
    (clock : Z) (store : gmap string client_window) : client_window :=
  match store !! key with
  | Some w =>
      if bool_decide (resetTime w ≤ clock) then
        {| totalHits := 1; resetTime := clock + windowMs options |}
      else {| totalHits := totalHits w + 1; resetTime := resetTime w |}
  | None => {| totalHits := 1; resetTime := clock + windowMs options |}
  end.

(** The middleware [rateLimit(options)] for a request from address [ip]
    at time [clock]: it counts the request and answers 429 itself when the
    count exceeds the limit ([Some]), or calls [next()] ([None]). *)
Definition rateLimit (options : rate_limit_options) (ip : string)
    (clock : Z) (store : gmap string client_window)
    : option response * gmap string client_window :=
  let w := increment options ip clock store in
  let store' := <[ip := w]> store in
  if bool_decide (limit options < totalHits w) then
    (Some {| status := 429; body := JString (message options) |}, store')
  else (None, store').

(** A route with a limiter first in its chain: [blocked] is what the route
    yields when the limiter answers, [next] what the rest of the chain
    yields. *)
Definition limited {A : Type} (options : rate_limit_options) (ip : string)
    (clock : Z) (store : gmap string client_window)
    (blocked : response → A) (next : A)
    : A * gmap string client_window :=
  match rateLimit options ip clock store with
  | (Some r, store') => (blocked r, store')
  | (None, store') => (next, store')
  end.

(** The client at [ip] has room at [clock]: it has no window open, or its
    window has ended, or it has made fewer requests in it than the limit
    (which is at least one). *)
Definition admits (options : rate_limit_options) (ip : string) (clock : Z)
    (store : gmap string client_window) : Prop :=
  1 ≤ limit options
  ∧ match store !! ip with
    | Some w => resetTime w ≤ clock ∨ totalHits w < limit options
    | None => True
    end.


(** The clock [jsonwebtoken] reads, in seconds. *)
Definition seconds (clock : Z) : Z := clock `div` 1000.

(** ** Users (the text is the same in both deployments) *)

Definition findUserBasedOnCredentials (email password : string)
    (db : database) : Promise (option identity) :=
  let rows := filter (λ u, u_email u = email) (users db) in
  match head rows with
  | None => Fulfilled None
  | Some user =>
      if bool_decide (u_password user ≠ password) then Fulfilled None
      else Fulfilled (Some {| id := u_id user; email := u_email user |})
  end.

Definition verifyToken (env : environment) (now : Z)
    (authHeader : option header_value) : gate :=
  if negb (truthy_header authHeader) then
    Reject {| status := 401; body := JString "You are not authorized" |}
  else
    let token := authHeader ≫= (λ h, h !! 1%nat) in
    match jwt_verify token (ACCESS_TOKEN_SECRET env) now with
    | None => Reject {| status := 403; body := JString "Invalid token" |}
    | Some user => Next user
    end.

Definition generateAccessToken (env : environment) (now : Z)
    (user : identity) : text :=
  jwt_sign (id user) (email user) (ACCESS_TOKEN_SECRET env)
    (Some (24 * 3600)) now.

Definition generateRefreshToken (env : environment) (now : Z)
    (user : identity) : text :=
  jwt_sign (id user) (email user) (REFRESH_TOKEN_SECRET env) None now.

Record register_body : Type := {
  r_email : option string;
  r_password : option string;
  r_first_name : option string;
  r_last_name : option string;
  r_phone_number : option string;
  r_confirm_password : option string
}.

(** INSERT INTO users: the store assigns the next id. *)
Definition insert_user (email password first last phone : string)
    (db : database) : Z * database :=
  let insertId := next_user_id db in
  (insertId,
   {| users := users db ++
        [ {| u_id := insertId; u_email := email; u_password := password;
             first_name := first; last_name := last;
             phone_number := phone |} ];
      events := events db;
      next_user_id := insertId + 1;
      next_event_id := next_event_id db |}).

(** POST /users/register: the handler, which runs once [secureLimiter]
    has let the request through (the whole route is
    [route_post_users_register]). *)
Definition post_users_register (env : environment) (now : Z)
    (b : register_body) (db : database) : option (response * database) :=
  if negb (truthy_string (r_email b)) || negb (truthy_string (r_password b))
     || negb (truthy_string (r_first_name b))
     || negb (truthy_string (r_last_name b))
     || negb (truthy_string (r_phone_number b))
     || negb (truthy_string (r_confirm_password b))
  then Some ({| status := 400; body := JMessage "Missing required fields" |}, db)
  else if bool_decide (r_password b ≠ r_confirm_password b)
  then Some ({| status := 400; body := JMessage "Passwords do not match" |}, db)
  else
    let email := default "" (r_email b) in
    let password := default "" (r_password b) in
    user ← await (findUserBasedOnCredentials email password db);
    match user with
    | Some _ =>
        Some ({| status := 409; body := JMessage "User already exists" |}, db)
    | None =>
        let '(user_id, db') :=
          insert_user email password (default "" (r_first_name b))
            (default "" (r_last_name b)) (default "" (r_phone_number b)) db in
        let accessToken :=
          generateAccessToken env now {| id := user_id; email := email |} in
        let refreshToken :=
          generateRefreshToken env now {| id := user_id; email := email |} in
        Some ({| status := 200;
                 body := JSession user_id email accessToken refreshToken |},
              db')
    end.

(** ** Events (the text is the same in both deployments) *)

Definition with_events (evs : list event) (db : database) : database :=
  {| users := users db; events := evs;
     next_user_id := next_user_id db; next_event_id := next_event_id db |}.

Definition createEvent (ev : event_body) (uid : Z) (db : database)
    : Promise Z * database :=
  let insertId := next_event_id db in
  (Fulfilled insertId,
   {| users := users db;
      events := events db ++
        [ {| e_id := insertId; name := b_name ev;
             description := b_description ev; location := b_location ev;
             from_date := b_from_date ev; to_date := b_to_date ev;
             contact := b_contact ev; user_id := uid |} ];
      next_user_id := next_user_id db;
      next_event_id := insertId + 1 |}).

Definition getEvents (uid : Z) (db : database) : Promise (list event) :=
  Fulfilled (filter (λ e, user_id e = uid) (events db)).

Definition getEventById (eid uid : Z) (db : database)
    : Promise (option event) :=
  let rows := filter (λ e, e_id e = eid ∧ user_id e = uid) (events db) in
  Fulfilled (head rows).

Definition removeEvent (eid uid : Z) (db : database)
    : Promise bool * database :=
  (Fulfilled true,
   with_events
     (filter (λ e, ¬ (e_id e = eid ∧ user_id e = uid)) (events db)) db).

Definition updateEvent (eid : Z) (updatedEvent : event_body) (db : database)
    : Promise bool * database :=
  (Fulfilled true,
   with_events
     ((λ e, if bool_decide (e_id e = eid) then
              {| e_id := e_id e; name := b_name updatedEvent;
                 description := b_description updatedEvent;
                 location := b_location updatedEvent;
                 from_date := b_from_date updatedEvent;
                 to_date := b_to_date updatedEvent;
                 contact := b_contact updatedEvent;
                 user_id := user_id e |}
            else e) <$> events db) db).

(** GET /events: [verifyToken] and the handler, which run once
    [postLimiter] has let the request through. *)
Definition get_events (env : environment) (now : Z)
    (authHeader : option header_value) (db : database) : option response :=
  match verifyToken env now authHeader with
  | Reject r => Some r
  | Next user =>
      let userId := tok_id user in
      rows ← await (getEvents userId db);
      Some {| status := 200; body := JEvents rows |}
  end.

(** GET /events/:id: [verifyToken] and the handler, which run once
    [postLimiter] has let the request through. *)
Definition get_events_id (env : environment) (now : Z)
    (authHeader : option header_value) (eid : Z) (db : database)
    : option response :=
  match verifyToken env now authHeader with
  | Reject r => Some r
  | Next user =>
      let userId := tok_id user in
      row ← await (getEventById eid userId db);
      match row with
      | None => Some {| status := 200; body := JNone |}
      | Some e => Some {| status := 200; body := JEvent e |}
      end
  end.

(** POST /events: [verifyToken] and the handler, which run once
    [postLimiter] has let the request through. *)
Definition post_events (env : environment) (now : Z)
    (authHeader : option header_value) (b : event_body) (db : database)
    : option (response * database) :=
  match verifyToken env now authHeader with
  | Reject r => Some (r, db)
  | Next user =>
      let userId := tok_id user in
      let '(p, db') := createEvent b userId db in
      insertId ← await p;
      Some ({| status := 201; body := JId insertId |}, db')
  end.

(** DELETE /events/:id: [verifyToken] and the handler, which run once
    [postLimiter] has let the request through. *)
Definition delete_events_id (env : environment) (now : Z)
    (authHeader : option header_value) (eid : Z) (db : database)
    : option (response * database) :=
  match verifyToken env now authHeader with
  | Reject r => Some (r, db)
  | Next user =>
      let userId := tok_id user in
      let '(p, db') := removeEvent eid userId db in
      removedEvent ← await p;
      if negb removedEvent then Some ({| status := 404; body := JNone |}, db')
      else Some ({| status := 204; body := JNone |}, db')
  end.

(** PUT /events/:id: [verifyToken] and the handler, which run once
    [postLimiter] has let the request through. *)
Definition put_events_id (env : environment) (now : Z)
    (authHeader : option header_value) (eid : Z) (b : event_body)
    (db : database) : option (response * database) :=
  match verifyToken env now authHeader with
  | Reject r => Some (r, db)
  | Next _ =>
      if negb (truthy (b_from_date b)) || negb (truthy (b_to_date b))
         || negb (truthy_string (b_name b))
      then Some ({| status := 400;
                    body := JMessage "Missing required fields" |}, db)
      else
        let '(p, db') := updateEvent eid b db in
        eventUpdated ← await p;
        if negb eventUpdated then
          Some ({| status := 404; body := JNone |}, db')
        else Some ({| status := 204; body := JNone |}, db')
  end.

(** ** Profile routes (the text is the same in both deployments) *)

Definition getUserById (userId : Z) (db : database)
    : Promise (option user) :=
  let rows := filter (λ u, u_id u = userId) (users db) in
  Fulfilled (head rows).

(** The [key] of PATCH /users/:id, as far as it names one of the text
    columns of the table; the store is not modelled for other keys. *)
Inductive column : Type :=
| col_email
| col_password
| col_first_name
| col_last_name
| col_phone_number.

Definition set_column (key : column) (data : string) (u : user) : user :=
  match key with
  | col_email =>
      {| u_id := u_id u; u_email := data; u_password := u_password u;
         first_name := first_name u; last_name := last_name u;
         phone_number := phone_number u |}
  | col_password =>
      {| u_id := u_id u; u_email := u_email u; u_password := data;
         first_name := first_name u; last_name := last_name u;
         phone_number := phone_number u |}
  | col_first_name =>
      {| u_id := u_id u; u_email := u_email u; u_password := u_password u;
         first_name := data; last_name := last_name u;
         phone_number := phone_number u |}
  | col_last_name =>
      {| u_id := u_id u; u_email := u_email u; u_password := u_password u;
         first_name := first_name u; last_name := data;
         phone_number := phone_number u |}
  | col_phone_number =>
      {| u_id := u_id u; u_email := u_email u; u_password := u_password u;
         first_name := first_name u; last_name := last_name u;
         phone_number := data |}
  end.

Definition updateUserData (userId : Z) (data : string) (key : column)
    (db : database) : Promise bool * database :=
  (Fulfilled true,
   {| users := (λ u, if bool_decide (u_id u = userId)
                     then set_column key data u else u) <$> users db;
      events := events db;
      next_user_id := next_user_id db;
      next_event_id := next_event_id db |}).

(** What GET /users/:id sends: the row as the store returned it, or an
    error response. *)
Inductive user_reply : Type :=
| UserRow (row : user)
| UserError (r : response).

(** GET /users/:id *)
Definition get_users_id (env : environment) (now : Z)
    (authHeader : option header_value) (uid : Z) (db : database)
    : option user_reply :=
  match verifyToken env now authHeader with
  | Reject r => Some (UserError r)
  | Next _ =>
      row ← await (getUserById uid db);
      match row with
      | None =>
          Some (UserError {| status := 404;
                             body := JMessage "User not found" |})
      | Some u => Some (UserRow u)
      end
  end.

(** PATCH /users/:id: [verifyToken] and the handler, which run once
    [postLimiter] has let the request through. *)
Definition patch_users_id (env : environment) (now : Z)
    (authHeader : option header_value) (uid : Z) (key : column)
    (value : string) (db : database) : option (response * database) :=
  match verifyToken env now authHeader with
  | Reject r => Some (r, db)
  | Next _ =>
      let '(p, db') := updateUserData uid value key db in
      updated ← await p;
      if negb updated then
        Some ({| status := 404; body := JMessage "User not found" |}, db')
      else Some ({| status := 204; body := JNone |}, db')
  end.

(** ** Profile images (the text is the same in both deployments) *)

(** An uploaded file as multer hands it over. *)
Record file : Type := {
  buffer : string;
  mimetype : string
}.

(** The bucket ["events-images"], by object key. [s3_up] tells whether
    [S3.send] goes through; when it does not, it throws. *)
Definition uploadFile (s3_up : bool) (f : file) (userId : string)
    (bucket : gmap string file) : Promise bool * gmap string file :=
  if s3_up then (Fulfilled true, <[userId +:+ ".jpg" := f]> bucket)
  else (Fulfilled false, bucket).

Definition getFile (s3_up : bool) (userId : string)
    (bucket : gmap string file) : Promise (option string) :=
  if s3_up then Fulfilled (buffer <$> bucket !! (userId +:+ ".jpg"))
  else Fulfilled None.

Inductive image_body : Type :=
| IError (error : string)
| IMessage (message : string)
| IStream (content_type : string) (bytes : string).

Record image_response : Type := {
  i_status : Z;
  i_body : image_body
}.

(** POST /upload-profile-image/:userId *)
Definition post_upload_profile_image (s3_up : bool) (userId : string)
    (image : option file) (bucket : gmap string file)
    : option (image_response * gmap string file) :=
  match image with
  | None =>
      Some ({| i_status := 400; i_body := IError "No image provided" |},
            bucket)
  | Some image =>
      let '(p, bucket') := uploadFile s3_up image userId bucket in
      uploaded ← await p;
      if negb uploaded then
        Some ({| i_status := 500;
                 i_body := IError "Failed to upload image" |}, bucket')
      else
        Some ({| i_status := 200;
                 i_body := IMessage "Image uploaded successfully" |},
              bucket')
  end.

(** GET /get-profile-image/:userId *)
Definition get_profile_image (s3_up : bool) (userId : string)
    (bucket : gmap string file) : option image_response :=
  f ← await (getFile s3_up userId bucket);
  match f with
  | None => Some {| i_status := 204; i_body := IError "File not found" |}
  | Some bytes =>
      Some {| i_status := 200; i_body := IStream "image/jpeg" bytes |}
  end.

(** ** The date-filtered query *)

(** The time zone of the server process. Offsets are whole quarter hours
    (as in every zone in use), so that [getTimezoneOffset() / 60] and its
    product with [MILISECONDS_IN_AN_HOUR] are exact in double precision:
    [quarters t] is [getTimezoneOffset() / 15] at the instant [t], and
    [of_wall_clock w] is the instant the engine reads the zone-less
    wall-clock time [w] as. All times are milliseconds. *)
Record timezone : Type := {
  quarters : Z → Z;
  of_wall_clock : Z → Z
}.

Definition getTimezoneOffset (tz : timezone) (t : Z) : Z :=
  15 * quarters tz t.

(** The [date] query parameter by the way [new Date(date)] reads it. *)
Inductive date_string : Type :=
| DateOnly (day : Z)          (* YYYY-MM-DD: midnight UTC of that day *)
| DateTimeUtc (t : Z)         (* with Z or an offset: an absolute instant *)
| DateTimeLocal (wall : Z)    (* no zone: wall-clock time of the server *)
| NotADate.                   (* anything else, or no parameter at all *)

Definition MILISECONDS_IN_A_DAY : Z := 24 * 60 * 60 * 1000.

(** The time value of a Date: an instant within 100,000,000 days of the
    epoch, or NaN ([None]). *)
Definition TimeClip (t : Z) : option Z :=
  if bool_decide (Z.abs t ≤ 100000000 * MILISECONDS_IN_A_DAY) then Some t
  else None.

(** [new Date(date).getTime()]; [None] is NaN. *)
Definition Date_getTime (tz : timezone) (date : date_string) : option Z :=
  match date with
  | DateOnly day => TimeClip (day * MILISECONDS_IN_A_DAY)
  | DateTimeUtc t => TimeClip t
  | DateTimeLocal wall => TimeClip (of_wall_clock tz wall)
  | NotADate => None
  end.

Section DateQuery.

(** [DATE(from_date) = ?] as the store decides it, for a stored
    [from_date] and the instant whose ISO string is bound to [?]. *)
Variable date_matches : Z → Z → bool.

Definition where_date (from_date : option Z) (parsedDate : Z) : bool :=
  match from_date with
  | Some f => date_matches f parsedDate
  | None => false
  end.

Definition getEventForCertainDate (tz : timezone) (date : date_string)
    (uid : Z) (db : database) : Promise (list event) :=
  let MILISECONDS_IN_AN_HOUR := 60 * 60 * 1000 in
  match Date_getTime tz date with
  | None => Rejected (* toISOString throws on an invalid date *)
  | Some t =>
      (* (offset / 60) * MILISECONDS_IN_AN_HOUR, which is exact for an
         offset of whole quarter hours *)
      let differenceBetweenZuluAndLocalTimezone_ms :=
        getTimezoneOffset tz t * (MILISECONDS_IN_AN_HOUR `div` 60) in
      match TimeClip (t - differenceBetweenZuluAndLocalTimezone_ms) with
      | None => Rejected (* toISOString throws outside the range of Date *)
      | Some parsedDate =>
          Fulfilled
            (filter (λ e, where_date (from_date e) parsedDate = true
                          ∧ user_id e = uid) (events db))
      end
  end.

(** GET /events/date: [verifyToken] and the handler, which run once
    [postLimiter] has let the request through. *)
Definition get_events_date (env : environment) (now : Z) (tz : timezone)
    (authHeader : option header_value) (date : date_string)
    (db : database) : option response :=
  match verifyToken env now authHeader with
  | Reject r => Some r
  | Next user =>
      let userId := tok_id user in
      rows ← await (getEventForCertainDate tz date userId db);
      Some {| status := 200; body := JEvents rows |}
  end.

(** The route GET /events/date, with its whole chain. *)
Definition route_get_events_date (env : environment) (clock : Z)
    (ip : string) (store : gmap string client_window) (tz : timezone)
    (authHeader : option header_value) (date : date_string)
    (db : database) : option response * gmap string client_window :=
  limited postLimiter ip clock store Some
    (get_events_date env (seconds clock) tz authHeader date db).

End DateQuery.

(** Two readings of the comparison of a DATE with an ISO date-time
    string: as date-times (the DATE at 00:00:00 against the full
    constant), or on the calendar date of the constant alone. *)
Definition date_matches_datetime (f p : Z) : bool :=
  bool_decide (f `div` MILISECONDS_IN_A_DAY * MILISECONDS_IN_A_DAY = p).

Definition date_matches_day (f p : Z) : bool :=
  bool_decide (f `div` MILISECONDS_IN_A_DAY = p `div` MILISECONDS_IN_A_DAY).

(** A zone at a fixed offset of [q] quarter hours behind UTC
    ([getTimezoneOffset] returns [15 * q] at every instant). *)
Definition fixed_zone (q : Z) : timezone :=
  {| quarters := λ _, q;
     of_wall_clock := λ w, w + q * 15 * 60 * 1000 |}.

(** ** The limited routes, with their whole chains *)

Definition route_post_users_register (env : environment) (clock : Z)
    (ip : string) (store : gmap string client_window) (b : register_body)
    (db : database)
    : option (response * database) * gmap string client_window :=
  limited secureLimiter ip clock store (λ r, Some (r, db))
    (post_users_register env (seconds clock) b db).

Definition route_patch_users_id (env : environment) (clock : Z)
    (ip : string) (store : gmap string client_window)
    (authHeader : option header_value) (uid : Z) (key : column)
    (value : string) (db : database)
    : option (response * database) * gmap string client_window :=
  limited postLimiter ip clock store (λ r, Some (r, db))
    (patch_users_id env (seconds clock) authHeader uid key value db).

Definition route_get_events (env : environment) (clock : Z) (ip : string)
    (store : gmap string client_window) (authHeader : option header_value)
    (db : database) : option response * gmap string client_window :=
  limited postLimiter ip clock store Some
    (get_events env (seconds clock) authHeader db).

Definition route_get_events_id (env : environment) (clock : Z)
    (ip : string) (store : gmap string client_window)
    (authHeader : option header_value) (eid : Z) (db : database)
    : option response * gmap string client_window :=
  limited postLimiter ip clock store Some
    (get_events_id env (seconds clock) authHeader eid db).

Definition route_post_events (env : environment) (clock : Z) (ip : string)
    (store : gmap string client_window) (authHeader : option header_value)
    (b : event_body) (db : database)
    : option (response * database) * gmap string client_window :=
  limited postLimiter ip clock store (λ r, Some (r, db))
    (post_events env (seconds clock) authHeader b db).

Definition route_delete_events_id (env : environment) (clock : Z)
    (ip : string) (store : gmap string client_window)
    (authHeader : option header_value) (eid : Z) (db : database)
    : option (response * database) * gmap string client_window :=
  limited postLimiter ip clock store (λ r, Some (r, db))
    (delete_events_id env (seconds clock) authHeader eid db).

Definition route_put_events_id (env : environment) (clock : Z)
    (ip : string) (store : gmap string client_window)
    (authHeader : option header_value) (eid : Z) (b : event_body)
    (db : database)
    : option (response * database) * gmap string client_window :=
  limited postLimiter ip clock store (λ r, Some (r, db))
    (put_events_id env (seconds clock) authHeader eid b db).

(** The column of a user row that a [key] of PATCH /users/:id names. *)
Definition get_column (key : column) (u : user) : string :=
  match key with
  | col_email => u_email u
  | col_password => u_password u
  | col_first_name => first_name u
  | col_last_name => last_name u
  | col_phone_number => phone_number u
  end.

(** ** The serverless deployment: sessions in Redis ([src/api.js]) *)

Module Serverless.

(** The Redis set ["refreshTokens"]. The three helpers send their command
    when they are called; the promise they return only reports it. *)
Definition addRefreshTokenToRedis (refreshToken : text)
    (redis : gset text) : Promise unit * gset text :=
  (Fulfilled (), {[refreshToken]} ∪ redis).

Definition removeRefreshTokenFromRedis (refreshToken : option text)
    (redis : gset text) : Promise unit * gset text :=
  match refreshToken with
  | Some t => (Fulfilled (), redis ∖ {[t]})
  | None => (Rejected, redis)
  end.

Definition refreshTokenExistsInRedis (refreshToken : option text)
    (redis : gset text) : Promise bool :=
  match refreshToken with
  | Some t => Fulfilled (bool_decide (t ∈ redis))
  | None => Rejected
  end.

(** POST /users/login: the handler, which runs once [secureLimiter] has
    let the request through. *)
Definition post_users_login (env : environment) (now : Z)
    (body_email body_password : option string) (db : database) (redis : gset text)
    : option (response * gset text) :=
  if negb (truthy_string body_email)
     || negb (truthy_string body_password) then
    Some ({| status := 400; body := JMessage "Missing required fields" |},
          redis)
  else
    user ← await (findUserBasedOnCredentials (default "" body_email)
                    (default "" body_password) db);
    match user with
    | None =>
        Some ({| status := 401; body := JMessage "Invalid credentials" |},
              redis)
    | Some user =>
        let accessToken := generateAccessToken env now user in
        let refreshToken := generateRefreshToken env now user in
        let '(_, redis') := addRefreshTokenToRedis refreshToken redis in
        Some ({| status := 200;
                 body := JSession (id user) (email user)
                           accessToken refreshToken |}, redis')
    end.

(** The route POST /users/login, with its whole chain. *)
Definition route_post_users_login (env : environment) (clock : Z)
    (ip : string) (store : gmap string client_window)
    (body_email body_password : option string) (db : database)
    (redis : gset text)
    : option (response * gset text) * gmap string client_window :=
  limited secureLimiter ip clock store (λ r, Some (r, redis))
    (post_users_login env (seconds clock) body_email body_password db
       redis).

(** POST /users/logout *)
Definition post_users_logout (env : environment) (now : Z)
    (authHeader : option header_value) (refreshToken : option text)
    (redis : gset text) : response * gset text :=
  match verifyToken env now authHeader with
  | Reject r => (r, redis)
  | Next _ =>
      let '(_, redis') := removeRefreshTokenFromRedis refreshToken redis in
      ({| status := 200; body := JMessage "Logged out successfully" |},
       redis')
  end.

(** POST /users/refresh *)
Definition post_users_refresh (env : environment) (now : Z)
    (refreshToken : option text) (redis : gset text)
    : response * gset text :=
  if negb (truthy_text refreshToken) then
    ({| status := 401; body := JMessage "You are not authenticated" |},
     redis)
  else if negb (truthy_promise
                  (refreshTokenExistsInRedis refreshToken redis)) then
    ({| status := 403; body := JMessage "Invalid refresh token" |}, redis)
  else
    match jwt_verify refreshToken (REFRESH_TOKEN_SECRET env) now with
    | None =>
        ({| status := 403; body := JMessage "Invalid refresh token" |},
         redis)
    | Some user =>
        let '(_, redis1) :=
          removeRefreshTokenFromRedis refreshToken redis in
        let newAccessToken :=
          generateAccessToken env now (identity_of_claims user) in
        let newRefreshToken :=
          generateRefreshToken env now (identity_of_claims user) in
        let '(_, redis2) :=
          addRefreshTokenToRedis newRefreshToken redis1 in
        ({| status := 200;
            body := JTokens newAccessToken newRefreshToken |}, redis2)
    end.

End Serverless.

(** ** The standalone deployment: the password-reset flow *)

Module Standalone.

Definition generateResetToken (env : environment) (now : Z)
    (user : identity) : text :=
  jwt_sign (id user) (email user) (RESET_TOKEN_SECRET env)
    (Some 3600) now.

Definition isValidResetToken (env : environment) (now : Z)
    (token : option text) : bool :=
  match jwt_verify token (RESET_TOKEN_SECRET env) now with
  | Some _ => true
  | None => false
  end.

Definition getUserIdFromResetToken (env : environment) (now : Z)
    (token : option text) : option Z :=
  match jwt_verify token (RESET_TOKEN_SECRET env) now with
  | Some c => Some (tok_id c)
  | None => None
  end.

(** What the store reports for an UPDATE. *)
Record ResultSetHeader : Type := {
  affectedRows : nat
}.

Definition set_password (password : string) (u : user) : user :=
  {| u_id := u_id u; u_email := u_email u; u_password := password;
     first_name := first_name u; last_name := last_name u;
     phone_number := phone_number u |}.

(** [userId] is [None] for [null], which no row's id equals. *)
Definition setNewPassword (password : string) (userId : option Z)
    (db : database) : Promise ResultSetHeader * database :=
  (Fulfilled
     {| affectedRows :=
          length (filter (λ u, Some (u_id u) = userId) (users db)) |},
   {| users := (λ u, if bool_decide (Some (u_id u) = userId)
                     then set_password password u else u) <$> users db;
      events := events db;
      next_user_id := next_user_id db;
      next_event_id := next_event_id db |}).

(** POST /verify-reset-token *)
Definition post_verify_reset_token (env : environment) (now : Z)
    (resetToken : option text) (db : database) : response * database :=
  if negb (truthy_text resetToken) then
    ({| status := 400; body := JMessage "Missing required fields" |}, db)
  else
    let validToken := isValidResetToken env now resetToken in
    if negb validToken then
      ({| status := 403; body := JMessage "Invalid token" |}, db)
    else ({| status := 200; body := JString "OK" |}, db).

(** POST /set-new-password *)
Definition post_set_new_password (env : environment) (now : Z)
    (resetToken : option text) (password : option string) (db : database)
    : response * database :=
  if negb (truthy_text resetToken) || negb (truthy_string password) then
    ({| status := 400; body := JMessage "Missing required fields" |}, db)
  else
    let validToken := isValidResetToken env now resetToken in
    let userId := getUserIdFromResetToken env now resetToken in
    if negb validToken then
      ({| status := 403; body := JMessage "Invalid token" |}, db)
    else
      let '(newPasswordSet, db') :=
        setNewPassword (default "" password) userId db in
      if negb (truthy_promise newPasswordSet) then
        ({| status := 403; body := JMessage "Invalid token" |}, db')
      else ({| status := 200; body := JString "OK" |}, db').

(** A call to one of the two reset entry points, at a clock time. *)
Inductive reset_call : Type :=
| VerifyResetToken (now : Z) (resetToken : option text)
| SetNewPassword (now : Z) (resetToken : option text)
    (password : option string).

Definition serve (env : environment) (c : reset_call) (db : database)
    : response * database :=
  match c with
  | VerifyResetToken now t => post_verify_reset_token env now t db
  | SetNewPassword now t p => post_set_new_password env now t p db
  end.

(** Serve the calls in order; the responses come back in order. *)
Fixpoint serve_all (env : environment) (cs : list reset_call)
    (db : database) : list response * database :=
  match cs with
  | [] => ([], db)
  | c :: cs =>
      let '(r, db1) := serve env c db in
      let '(rs, db2) := serve_all env cs db1 in
      (r :: rs, db2)
  end.

Definition findUserBasedOnEmail (email : string) (db : database)
    : Promise (option identity) :=
  let rows := filter (λ u, u_email u = email) (users db) in
  match head rows with
  | None => Fulfilled None
  | Some user =>
      if bool_decide (u_email user ≠ email) then Fulfilled None
      else Fulfilled (Some {| id := u_id user; email := u_email user |})
  end.

(** A message handed to the mail transport: the recipient, the subject
    and the reset token its link ends in. *)
Record mail : Type := {
  mail_to : string;
  mail_subject : string;
  mail_link_token : text
}.

(** What [sendMail] resolves with. *)
Record SentMessageInfo : Type := {
  accepted : list string
}.

(** [!info]: an object is truthy. *)
Definition truthy_info (i : SentMessageInfo) : bool := true.

(** [transport_up] tells whether [sendMail] goes through; when it does
    not, its promise is rejected. *)
Definition sendResetPasswordEmail (transport_up : bool) (user : identity)
    (resetToken : text) (outbox : list mail)
    : Promise SentMessageInfo * list mail :=
  let mailOptions :=
    {| mail_to := email user; mail_subject := "Reset Password";
       mail_link_token := resetToken |} in
  if transport_up then
    (Fulfilled {| accepted := [email user] |}, outbox ++ [mailOptions])
  else (Rejected, outbox).

(** POST /forgot-password *)
Definition post_forgot_password (env : environment) (now : Z)
    (transport_up : bool) (body_email : option string) (db : database)
    (outbox : list mail) : option (response * list mail) :=
  if negb (truthy_string body_email) then
    Some ({| status := 400; body := JMessage "Missing required fields" |},
          outbox)
  else
    user ← await (findUserBasedOnEmail (default "" body_email) db);
    match user with
    | None =>
        Some ({| status := 404; body := JMessage "User not found" |},
              outbox)
    | Some user =>
        let resetToken := generateResetToken env now user in
        let '(p, outbox') :=
          sendResetPasswordEmail transport_up user resetToken outbox in
        sendEmail ← await p;
        if negb (truthy_info sendEmail) then
          Some ({| status := 500;
                   body := JMessage "Failed to send email" |}, outbox')
        else Some ({| status := 200; body := JString "OK" |}, outbox')
    end.

(** POST /users/login, without a session registry: the handler, which
    runs once [secureLimiter] has let the request through. *)
Definition post_users_login_stateless (env : environment) (now : Z)
    (body_email body_password : option string) (db : database)
    : option response :=
  if negb (truthy_string body_email)
     || negb (truthy_string body_password) then
    Some {| status := 400; body := JMessage "Missing required fields" |}
  else
    user ← await (findUserBasedOnCredentials (default "" body_email)
                    (default "" body_password) db);
    match user with
    | None =>
        Some {| status := 401; body := JMessage "Invalid credentials" |}
    | Some user =>
        let accessToken := generateAccessToken env now user in
        let refreshToken := generateRefreshToken env now user in
        Some {| status := 200;
                body := JSession (id user) (email user)
                          accessToken refreshToken |}
    end.

(** The route POST /users/login of this deployment, with its whole
    chain. *)
Definition route_post_users_login_stateless (env : environment)
    (clock : Z) (ip : string) (store : gmap string client_window)
    (body_email body_password : option string) (db : database)
    : option response * gmap string client_window :=
  limited secureLimiter ip clock store Some
    (post_users_login_stateless env (seconds clock) body_email
       body_password db).

(** POST /users/refresh, without a session registry *)
Definition post_users_refresh_stateless (env : environment) (now : Z)
    (refreshToken : option text) : response :=
  if negb (truthy_text refreshToken) then
    {| status := 401; body := JMessage "You are not authenticated" |}
  else
    match jwt_verify refreshToken (REFRESH_TOKEN_SECRET env) now with
    | None =>
        {| status := 403; body := JMessage "Invalid refresh token" |}
    | Some user =>
        let newAccessToken :=
          generateAccessToken env now (identity_of_claims user) in
        let newRefreshToken :=
          generateRefreshToken env now (identity_of_claims user) in
        {| status := 200;
           body := JTokens newAccessToken newRefreshToken |}
    end.

(** The call presents [tok] before [deadline], with a non-empty new
    password where it sets one. *)
Definition presents (tok : text) (deadline : Z) (c : reset_call) : Prop :=
  match c with
  | VerifyResetToken now t => t = Some tok ∧ now < deadline
  | SetNewPassword now t p =>
      t = Some tok ∧ now < deadline ∧ truthy_string p = true
  end.

End Standalone.

(** ** Sample data *)

Definition env0 : environment :=
  {| ACCESS_TOKEN_SECRET := "access";
     REFRESH_TOKEN_SECRET := "refresh";
     RESET_TOKEN_SECRET := "reset" |}.

Definition alice : identity := {| id := 1; email := "alice@example.org" |}.

Definition alice_row : user :=
  {| u_id := 1; u_email := "alice@example.org"; u_password := "s3cret";
     first_name := "Alice"; last_name := "A"; phone_number := "555" |}.

Definition db_alice : database :=
  {| users := [alice_row]; events := [];
     next_user_id := 2; next_event_id := 1 |}.

Definition db_empty : database :=
  {| users := []; events := []; next_user_id := 1; next_event_id := 1 |}.

Definition bob_row : user :=
  {| u_id := 2; u_email := "bob@example.org"; u_password := "pa55";
     first_name := "Bob"; last_name := "B"; phone_number := "556" |}.

(** 2024-03-15 is day 19797 of the epoch. *)
Definition march_15 : Z := 19797.

Definition ev_alice : event :=
  {| e_id := 7; name := Some "Launch"; description := None;
     location := Some "Cluj";
     from_date := Some (march_15 * MILISECONDS_IN_A_DAY + 10 * 3600000);
     to_date := Some (march_15 * MILISECONDS_IN_A_DAY + 12 * 3600000);
     contact := None; user_id := 1 |}.

Definition ev_bob : event :=
  {| e_id := 8; name := Some "Retro"; description := None;
     location := Some "Iasi";
     from_date := Some (march_15 * MILISECONDS_IN_A_DAY + 15 * 3600000);
     to_date := Some (march_15 * MILISECONDS_IN_A_DAY + 16 * 3600000);
     contact := None; user_id := 2 |}.

Definition db_events : database :=
  {| users := [alice_row; bob_row]; events := [ev_alice; ev_bob];
     next_user_id := 3; next_event_id := 9 |}.

Definition put_body : event_body :=
  {| b_name := Some "Cancelled"; b_description := None;
     b_location := None; b_from_date := Some 0; b_to_date := Some 1;
     b_contact := None |}.

Definition register_again : register_body :=
  {| r_email := Some "alice@example.org"; r_password := Some "other";
     r_first_name := Some "Mallory"; r_last_name := Some "M";
     r_phone_number := Some "557"; r_confirm_password := Some "other" |}.

Definition alice_header : option header_value :=
  Some [Plain "Bearer"; generateAccessToken env0 0 alice].

Definition portrait : file :=
  {| buffer := "JFIF-bytes"; mimetype := "image/png" |}.

(** A registration body with every field present and the password
    confirmed. *)
Definition complete_body (mail pw first last phone : string)
    : register_body :=
  {| r_email := Some mail; r_password := Some pw;
     r_first_name := Some first; r_last_name := Some last;
     r_phone_number := Some phone; r_confirm_password := Some pw |}.

(** The row POST /events stores for body [b] on behalf of user [uid]. *)
Definition created_row (b : event_body) (uid : Z) (db : database) : event :=
  {| e_id := next_event_id db; name := b_name b;
     description := b_description b; location := b_location b;
     from_date := b_from_date b; to_date := b_to_date b;
     contact := b_contact b; user_id := uid |}.

Definition alice_ip : string := "203.0.113.7".

(** * Properties *)

(** ** Tokens *)

Lemma jwt_verify_sign_other_key uid mail key secret expiresIn issued now :
  key ≠ secret →
  jwt_verify (Some (jwt_sign uid mail key expiresIn issued)) secret now = None.
Proof.
  intros Hne. unfold jwt_verify, jwt_sign.
  rewrite bool_decide_eq_false_2; done.
Qed.

Lemma jwt_verify_sign_same_key uid mail secret d issued now :
  now < issued + d →
  jwt_verify (Some (jwt_sign uid mail secret (Some d) issued)) secret now
  = Some (Claims uid mail issued (Some (issued + d))).
Proof.
  intros Hlt. unfold jwt_verify, jwt_sign. simpl.
  rewrite bool_decide_eq_true_2 by done.
  rewrite bool_decide_eq_false_2 by lia. done.
Qed.

Lemma truthy_header_second (h : header_value) (t : text) :
  h !! 1%nat = Some t → truthy_header (Some h) = true.
Proof.
  destruct h as [| a [| b rest]]; simpl; try discriminate.
  intros _. by destruct a as [[|c s]|p k].
Qed.

Lemma verifyToken_second env now (h : header_value) (t : text) :
  h !! 1%nat = Some t →
  verifyToken env now (Some h)
  = match jwt_verify (Some t) (ACCESS_TOKEN_SECRET env) now with
    | None => Reject {| status := 403; body := JString "Invalid token" |}
    | Some user => Next user
    end.
Proof.
  intros Hh. unfold verifyToken.
  rewrite (truthy_header_second h t Hh). simpl. by rewrite Hh.
Qed.

(** C5: the Request Authenticator answers 401 to a request without an
    Authorization header; to a request whose header carries a token with a
    signature that does not check under the access secret, or an expired
    one (or no readable token at all), it answers 403; for a token signed
    under the access secret and not expired it attaches the decoded claims,
    which hold the user's id and email, and calls the handler. *)
Theorem verifyToken_contract (env : environment) (now : Z) :
  verifyToken env now None
    = Reject {| status := 401; body := JString "You are not authorized" |}
  ∧ (∀ (h : header_value) p k,
       h !! 1%nat = Some (Jwt p k) →
       k ≠ ACCESS_TOKEN_SECRET env ∨ (∃ e, exp p = Some e ∧ e ≤ now) →
       verifyToken env now (Some h)
       = Reject {| status := 403; body := JString "Invalid token" |})
  ∧ (∀ (h : header_value),
       truthy_header (Some h) = true →
       (h !! 1%nat = None ∨ ∃ s, h !! 1%nat = Some (Plain s)) →
       verifyToken env now (Some h)
       = Reject {| status := 403; body := JString "Invalid token" |})
  ∧ (∀ (h : header_value) p,
       h !! 1%nat = Some (Jwt p (ACCESS_TOKEN_SECRET env)) →
       (∀ e, exp p = Some e → now < e) →
       verifyToken env now (Some h) = Next p).
Proof.
  split; [reflexivity |]. split; [| split].
  - intros h p k Hh Hbad. unfold verifyToken.
    rewrite (truthy_header_second h _ Hh). simpl. rewrite Hh. simpl.
    destruct Hbad as [Hk | (e & He & Hle)].
    + by rewrite bool_decide_eq_false_2.
    + case_bool_decide; [| done]. rewrite He.
      by rewrite bool_decide_eq_true_2.
  - intros h Htruthy Hh. unfold verifyToken. rewrite Htruthy. simpl.
    destruct Hh as [-> | [s ->]]; reflexivity.
  - intros h p Hh Hfresh. unfold verifyToken.
    rewrite (truthy_header_second h _ Hh). simpl. rewrite Hh. simpl.
    rewrite bool_decide_eq_true_2 by done.
    destruct (exp p) as [e |] eqn:He; [| done].
    rewrite bool_decide_eq_false_2; [done |].
    specialize (Hfresh e eq_refl). lia.
Qed.

Lemma verifyToken_contract_witness :
  verifyToken env0 100 (Some [Plain "Bearer"; generateAccessToken env0 0 alice])
  = Next (Claims 1 "alice@example.org" 0 (Some 86400)).
Proof.
  apply (proj2 (proj2 (proj2 (verifyToken_contract env0 100)))).
  - reflexivity.
  - intros e He. injection He as <-. lia.
Defined.

(** ** Credentials *)

Lemma head_filter_unique_email (l : list user) (u : user) :
  NoDup (u_email <$> l) → u ∈ l →
  head (filter (λ v, u_email v = u_email u) l) = Some u.
Proof.
  induction l as [| v l IH]; intros Hnd Hin.
  - by apply elem_of_nil in Hin.
  - rewrite fmap_cons in Hnd. apply NoDup_cons in Hnd as [Hv Hnd].
    rewrite filter_cons. apply elem_of_cons in Hin as [-> | Hin].
    + by rewrite decide_True.
    + rewrite decide_False; [by apply IH |].
      intros Heq. apply Hv. rewrite Heq.
      apply list_elem_of_fmap. by exists u.
Qed.

Lemma head_filter_first_email (mail : string) (l : list user) (u : user) :
  head (filter (λ v, u_email v = mail) l) = Some u
  ↔ ∃ l1 l2, l = l1 ++ u :: l2
             ∧ (∀ v, v ∈ l1 → u_email v ≠ mail) ∧ u_email u = mail.
Proof.
  induction l as [| w l IH].
  - split; [discriminate |]. intros (l1 & l2 & Heq & _).
    by destruct l1.
  - rewrite filter_cons. destruct (decide (u_email w = mail)) as [Hw | Hw].
    + simpl. split.
      * intros [= ->]. exists [], l. split_and!; [done | | done].
        intros v Hv. by apply elem_of_nil in Hv.
      * intros (l1 & l2 & Heq & Hl1 & Hu). destruct l1 as [| w' l1].
        -- by injection Heq as ->.
        -- injection Heq as -> _. destruct (Hl1 w'); [by left | done].
    + rewrite IH. split.
      * intros (l1 & l2 & -> & Hl1 & Hu). exists (w :: l1), l2.
        split_and!; [done | | done].
        intros v [-> | Hv]%elem_of_cons; [done | by apply Hl1].
      * intros (l1 & l2 & Heq & Hl1 & Hu). destruct l1 as [| w' l1].
        -- injection Heq as -> _. done.
        -- injection Heq as -> ->. exists l1, l2.
           split_and!; [done | | done].
           intros v Hv. apply Hl1. by right.
Qed.

(** C6 (as stated) fails on a user table with two rows for one email, as
    registration leaves it: a row with the email and the candidate password
    is stored, yet the Credential Verifier returns no-match, because the
    first row with that email holds another password. *)
Lemma findUserBasedOnCredentials_reads_first_row :
  {| u_id := 2; u_email := "alice@example.org"; u_password := "other";
     first_name := "Mallory"; last_name := "M"; phone_number := "557" |}
  ∈ users {| users :=
               [ alice_row;
                 {| u_id := 2; u_email := "alice@example.org";
                    u_password := "other"; first_name := "Mallory";
                    last_name := "M"; phone_number := "557" |} ];
             events := []; next_user_id := 3; next_event_id := 1 |}
  ∧ findUserBasedOnCredentials "alice@example.org" "other"
      {| users :=
           [ alice_row;
             {| u_id := 2; u_email := "alice@example.org";
                u_password := "other"; first_name := "Mallory";
                last_name := "M"; phone_number := "557" |} ];
         events := []; next_user_id := 3; next_event_id := 1 |}
    = Fulfilled None.
Proof.
  split; [| reflexivity]. simpl. apply elem_of_cons. right.
  apply list_elem_of_here.
Qed.

(** C6 (amended): for every email/password pair the Credential Verifier
    returns {id, email} of the first stored row with that email, exactly
    when there is such a row and its stored password equals the candidate;
    in every other case it returns no-match, as a value and never as an
    error. When emails are unique in the user table, it returns {id, email}
    exactly when a row with that email and that password is stored. *)
Theorem findUserBasedOnCredentials_exact (db : database)
    (mail password : string) :
  (∀ i, findUserBasedOnCredentials mail password db = Fulfilled (Some i)
        ↔ ∃ l1 u l2,
            users db = l1 ++ u :: l2
            ∧ (∀ v, v ∈ l1 → u_email v ≠ mail)
            ∧ u_email u = mail ∧ u_password u = password
            ∧ i = {| id := u_id u; email := u_email u |})
  ∧ (findUserBasedOnCredentials mail password db = Fulfilled None
     ∨ ∃ i, findUserBasedOnCredentials mail password db
            = Fulfilled (Some i))
  ∧ (NoDup (u_email <$> users db) →
     ∀ i, findUserBasedOnCredentials mail password db = Fulfilled (Some i)
          ↔ ∃ u, u ∈ users db ∧ u_email u = mail
                 ∧ u_password u = password
                 ∧ i = {| id := u_id u; email := u_email u |}).
Proof.
  split_and!.
  - intros i. unfold findUserBasedOnCredentials. split.
    + destruct (head _) as [u |] eqn:Hhead; [| discriminate].
      apply head_filter_first_email in Hhead
        as (l1 & l2 & Heq & Hl1 & Hmail).
      case_bool_decide as Hpw; [discriminate |].
      intros [= <-]. exists l1, u, l2. split_and!; try done;
        by destruct (decide (u_password u = password)).
    + intros (l1 & u & l2 & Heq & Hl1 & Hmail & Hpw & ->).
      assert (Hhead : head (filter (λ v, u_email v = mail) (users db))
                      = Some u)
        by (apply head_filter_first_email; eauto).
      rewrite Hhead.
      by rewrite bool_decide_eq_false_2 by (intros Hne; by apply Hne).
  - unfold findUserBasedOnCredentials.
    destruct (head _) as [u |]; [| by left].
    case_bool_decide; [by left | right; by eexists].
  - intros Hnd i. unfold findUserBasedOnCredentials. split.
    + destruct (head _) as [u |] eqn:Hhead; [| discriminate].
      apply head_Some_elem_of, list_elem_of_filter in Hhead as [Hmail Hin].
      case_bool_decide as Hpw; [discriminate |].
      intros [= <-]. exists u. split_and!; try done;
        by destruct (decide (u_password u = password)).
    + intros (u & Hin & Hmail & Hpw & ->). subst mail.
      rewrite (head_filter_unique_email _ u Hnd Hin).
      by rewrite bool_decide_eq_false_2 by (intros Hne; by apply Hne).
Qed.

Lemma findUserBasedOnCredentials_exact_witness :
  findUserBasedOnCredentials "alice@example.org" "s3cret" db_alice
  = Fulfilled (Some {| id := 1; email := "alice@example.org" |}).
Proof.
  apply (proj1 (findUserBasedOnCredentials_exact db_alice
                  "alice@example.org" "s3cret")).
  exists [], alice_row, []. split_and!; try reflexivity.
  intros v Hv. by apply elem_of_nil in Hv.
Defined.

(** ** Token kinds *)

(** C9: with the three signing secrets pairwise distinct, a token of one
    kind is refused wherever another kind is expected, for every user and at
    every time: a refresh or reset token sent as Bearer token is answered
    403 by the Request Authenticator, an access or refresh token is reported
    invalid in the reset flow, and an access or reset token is answered 403
    by the refresh route. *)
Theorem token_kinds_do_not_cross (env : environment) (issued now : Z)
    (user : identity) (scheme : text) (redis : gset text) :
  ACCESS_TOKEN_SECRET env ≠ REFRESH_TOKEN_SECRET env →
  ACCESS_TOKEN_SECRET env ≠ RESET_TOKEN_SECRET env →
  REFRESH_TOKEN_SECRET env ≠ RESET_TOKEN_SECRET env →
  verifyToken env now (Some [scheme; generateRefreshToken env issued user])
    = Reject {| status := 403; body := JString "Invalid token" |}
  ∧ verifyToken env now
      (Some [scheme; Standalone.generateResetToken env issued user])
    = Reject {| status := 403; body := JString "Invalid token" |}
  ∧ Standalone.isValidResetToken env now
      (Some (generateAccessToken env issued user)) = false
  ∧ Standalone.isValidResetToken env now
      (Some (generateRefreshToken env issued user)) = false
  ∧ Serverless.post_users_refresh env now
      (Some (generateAccessToken env issued user)) redis
    = ({| status := 403; body := JMessage "Invalid refresh token" |}, redis)
  ∧ Serverless.post_users_refresh env now
      (Some (Standalone.generateResetToken env issued user)) redis
    = ({| status := 403; body := JMessage "Invalid refresh token" |}, redis).
Proof.
  intros Har Hae Hre.
  assert (Hra : REFRESH_TOKEN_SECRET env ≠ ACCESS_TOKEN_SECRET env) by done.
  assert (Hea : RESET_TOKEN_SECRET env ≠ ACCESS_TOKEN_SECRET env) by done.
  assert (Her : RESET_TOKEN_SECRET env ≠ REFRESH_TOKEN_SECRET env) by done.
  split_and!.
  - rewrite (verifyToken_second env now [scheme; _] _ eq_refl).
    unfold generateRefreshToken. by rewrite jwt_verify_sign_other_key.
  - rewrite (verifyToken_second env now [scheme; _] _ eq_refl).
    unfold Standalone.generateResetToken.
    by rewrite jwt_verify_sign_other_key.
  - unfold Standalone.isValidResetToken, generateAccessToken.
    by rewrite jwt_verify_sign_other_key.
  - unfold Standalone.isValidResetToken, generateRefreshToken.
    by rewrite jwt_verify_sign_other_key.
  - unfold Serverless.post_users_refresh, generateAccessToken.
    by rewrite jwt_verify_sign_other_key.
  - unfold Serverless.post_users_refresh, Standalone.generateResetToken.
    by rewrite jwt_verify_sign_other_key.
Qed.

Lemma token_kinds_do_not_cross_witness :
  Standalone.isValidResetToken env0 10
    (Some (generateAccessToken env0 0 alice)) = false.
Proof.
  refine (proj1 (proj2 (proj2
            (token_kinds_do_not_cross env0 0 10 alice (Plain "Bearer") ∅
               _ _ _)))); discriminate.
Defined.

(** ** Password reset *)

Lemma isValidResetToken_fresh env issued now user :
  now < issued + 3600 →
  Standalone.isValidResetToken env now
    (Some (Standalone.generateResetToken env issued user)) = true.
Proof.
  intros Hlt. unfold Standalone.isValidResetToken,
    Standalone.generateResetToken.
  by rewrite jwt_verify_sign_same_key.
Qed.

Lemma getUserIdFromResetToken_fresh env issued now user :
  now < issued + 3600 →
  Standalone.getUserIdFromResetToken env now
    (Some (Standalone.generateResetToken env issued user)) = Some (id user).
Proof.
  intros Hlt. unfold Standalone.getUserIdFromResetToken,
    Standalone.generateResetToken.
  by rewrite jwt_verify_sign_same_key.
Qed.

Lemma truthy_promise_always {A : Type} (p : Promise A) :
  negb (truthy_promise p) = false.
Proof. reflexivity. Qed.

Lemma post_set_new_password_valid env now tok password db :
  truthy_text (Some tok) = true →
  truthy_string password = true →
  Standalone.isValidResetToken env now (Some tok) = true →
  Standalone.post_set_new_password env now (Some tok) password db
  = ({| status := 200; body := JString "OK" |},
     snd (Standalone.setNewPassword (default "" password)
            (Standalone.getUserIdFromResetToken env now (Some tok)) db)).
Proof.
  intros Htok Hpw Hvalid. unfold Standalone.post_set_new_password.
  rewrite Htok, Hpw, Hvalid. reflexivity.
Qed.

Lemma isValidResetToken_truthy env now tok :
  Standalone.isValidResetToken env now (Some tok) = true →
  truthy_text (Some tok) = true.
Proof. destruct tok; [discriminate | done]. Qed.

(** C10: a request to POST /set-new-password with a non-empty password and
    a reset token that verifies is answered 200 whatever the update does:
    the handler tests the promise that setNewPassword returns, which is
    truthy however it settles, so the 403 answer behind that test is never
    given, also when the update changes no row. *)
Theorem set_new_password_ignores_update (env : environment) (now : Z)
    (tok : text) (password : option string) (db : database) :
  truthy_string password = true →
  Standalone.isValidResetToken env now (Some tok) = true →
  fst (Standalone.post_set_new_password env now (Some tok) password db)
    = {| status := 200; body := JString "OK" |}
  ∧ (∀ p : Promise Standalone.ResultSetHeader,
       negb (truthy_promise p) = false).
Proof.
  intros Hpw Hvalid. split; [| intros p; apply truthy_promise_always].
  rewrite post_set_new_password_valid; try done.
  by eapply isValidResetToken_truthy.
Qed.

Lemma set_new_password_ignores_update_witness :
  fst (Standalone.post_set_new_password env0 10
         (Some (Standalone.generateResetToken env0 0 alice)) (Some "hunter2")
         db_empty)
  = {| status := 200; body := JString "OK" |}.
Proof.
  apply (set_new_password_ignores_update env0 10
           (Standalone.generateResetToken env0 0 alice) (Some "hunter2")
           db_empty); reflexivity.
Defined.

Lemma post_verify_reset_token_pure env now t db :
  snd (Standalone.post_verify_reset_token env now t db) = db.
Proof.
  unfold Standalone.post_verify_reset_token.
  destruct (truthy_text t); simpl; [| done].
  by destruct (Standalone.isValidResetToken env now t).
Qed.

Lemma serve_presented env issued user c db :
  Standalone.presents (Standalone.generateResetToken env issued user)
    (issued + 3600) c →
  status (fst (Standalone.serve env c db)) = 200.
Proof.
  destruct c as [now t | now t p]; simpl.
  - intros [-> Hlt]. unfold Standalone.post_verify_reset_token.
    by rewrite isValidResetToken_fresh.
  - intros (-> & Hlt & Hp).
    rewrite post_set_new_password_valid; try done.
    by apply isValidResetToken_fresh.
Qed.

Lemma truthy_string_nonempty s :
  s ≠ "" → truthy_string (Some s) = true.
Proof. intros Hs. simpl. by rewrite bool_decide_eq_true_2. Qed.

Lemma isValidResetToken_expired env issued now user :
  issued + 3600 ≤ now →
  Standalone.isValidResetToken env now
    (Some (Standalone.generateResetToken env issued user)) = false.
Proof.
  intros Hle. unfold Standalone.isValidResetToken,
    Standalone.generateResetToken, jwt_sign, jwt_verify. simpl.
  rewrite bool_decide_eq_true_2 by done.
  by rewrite bool_decide_eq_true_2 by lia.
Qed.

(** C8 (as stated) fails: a call to set-new-password that presents a
    reset token well before its expiry, but no password or an empty one,
    does not succeed; it is answered 400 and the store is left as it
    was. *)
Lemma set_new_password_needs_password :
  Standalone.post_set_new_password env0 10
    (Some (Standalone.generateResetToken env0 0 alice)) None db_alice
  = ({| status := 400; body := JMessage "Missing required fields" |},
     db_alice)
  ∧ Standalone.post_set_new_password env0 10
      (Some (Standalone.generateResetToken env0 0 alice)) (Some "") db_alice
    = ({| status := 400; body := JMessage "Missing required fields" |},
       db_alice).
Proof. split; reflexivity. Qed.

(** C8 (amended): nothing consumes a reset token. verify-reset-token
    leaves the store as it was and answers by the validity of the token
    alone: 200 before the token's expiry, one hour after issue, and 403 from
    then on. set-new-password with a token before its expiry and a
    non-empty password answers 200 and stores that password in the rows
    with the id the token names, every other column and every other row
    staying as it was; without a password it answers 400, and with an
    expired token 403, changing nothing. So any sequence of calls to
    verify-reset-token and to set-new-password with a non-empty password
    that present the same token before its expiry is answered 200
    throughout. *)
Theorem reset_token_is_never_consumed (env : environment) (issued : Z)
    (user : identity) :
  (∀ now t db, snd (Standalone.post_verify_reset_token env now t db) = db)
  ∧ (∀ now db,
       fst (Standalone.post_verify_reset_token env now
              (Some (Standalone.generateResetToken env issued user)) db)
       = if bool_decide (now < issued + 3600)
         then {| status := 200; body := JString "OK" |}
         else {| status := 403; body := JMessage "Invalid token" |})
  ∧ (∀ now pw db,
       now < issued + 3600 → pw ≠ "" →
       ∃ db',
         Standalone.post_set_new_password env now
           (Some (Standalone.generateResetToken env issued user))
           (Some pw) db
         = ({| status := 200; body := JString "OK" |}, db')
         ∧ events db' = events db
         ∧ length (users db') = length (users db)
         ∧ ∀ (i : nat) u, users db !! i = Some u →
             ∃ u', users db' !! i = Some u'
                   ∧ u_id u' = u_id u ∧ u_email u' = u_email u
                   ∧ first_name u' = first_name u
                   ∧ last_name u' = last_name u
                   ∧ phone_number u' = phone_number u
                   ∧ u_password u'
                     = if bool_decide (u_id u = id user) then pw
                       else u_password u)
  ∧ (∀ now t pw db,
       truthy_string pw = false →
       Standalone.post_set_new_password env now t pw db
       = ({| status := 400; body := JMessage "Missing required fields" |},
          db))
  ∧ (∀ now pw db,
       issued + 3600 ≤ now → pw ≠ "" →
       Standalone.post_set_new_password env now
         (Some (Standalone.generateResetToken env issued user)) (Some pw) db
       = ({| status := 403; body := JMessage "Invalid token" |}, db))
  ∧ (∀ calls db,
       Forall (Standalone.presents
                 (Standalone.generateResetToken env issued user)
                 (issued + 3600)) calls →
       Forall (λ r, status r = 200)
         (fst (Standalone.serve_all env calls db))).
Proof.
  split_and!.
  - intros. apply post_verify_reset_token_pure.
  - intros now db. unfold Standalone.post_verify_reset_token.
    change (truthy_text (Some (Standalone.generateResetToken env issued
                                 user))) with true.
    simpl negb. cbv iota. case_bool_decide as Hlt.
    + by rewrite isValidResetToken_fresh.
    + by rewrite isValidResetToken_expired by lia.
  - intros now pw db Hlt Hpw. eexists.
    rewrite post_set_new_password_valid;
      [| done | by apply truthy_string_nonempty
       | by apply isValidResetToken_fresh].
    rewrite getUserIdFromResetToken_fresh by done.
    split_and!; [reflexivity | done | |].
    + simpl. by rewrite length_fmap.
    + intros i u Hu. simpl. rewrite list_lookup_fmap, Hu. simpl.
      eexists. split; [reflexivity |].
      destruct (decide (u_id u = id user)) as [Heq | Hne].
      * rewrite !bool_decide_eq_true_2 by congruence. by simpl.
      * rewrite !bool_decide_eq_false_2 by congruence. by simpl.
  - intros now t pw db Hpw. unfold Standalone.post_set_new_password.
    by rewrite Hpw, orb_true_r.
  - intros now pw db Hle Hpw. unfold Standalone.post_set_new_password.
    change (truthy_text (Some (Standalone.generateResetToken env issued
                                 user))) with true.
    rewrite truthy_string_nonempty by done. simpl negb. simpl orb.
    cbv iota. by rewrite isValidResetToken_expired.
  - intros calls. induction calls as [| c calls IH]; intros db Hall.
    + constructor.
    + apply Forall_cons in Hall as [Hc Hall]. simpl.
      pose proof (serve_presented env issued user c db Hc) as Hst.
      destruct (Standalone.serve env c db) as [r db1].
      specialize (IH db1 Hall).
      destruct (Standalone.serve_all env calls db1) as [rs db2].
      simpl in *. by constructor.
Qed.

Lemma reset_token_is_never_consumed_witness :
  Forall (λ r, status r = 200)
    (fst (Standalone.serve_all env0
            [ Standalone.VerifyResetToken 10
                (Some (Standalone.generateResetToken env0 0 alice));
              Standalone.SetNewPassword 20
                (Some (Standalone.generateResetToken env0 0 alice))
                (Some "first");
              Standalone.VerifyResetToken 30
                (Some (Standalone.generateResetToken env0 0 alice));
              Standalone.SetNewPassword 3599
                (Some (Standalone.generateResetToken env0 0 alice))
                (Some "second") ]
            db_alice)).
Proof.
  apply (proj2 (proj2 (proj2 (proj2 (proj2
           (reset_token_is_never_consumed env0 0 alice)))))).
  repeat apply Forall_cons_2; try apply Forall_nil_2;
    simpl; split_and!; (reflexivity || lia).
Defined.

(** ** Registration *)

(** C7: registering an email that a row already holds, with another
    password, is answered 200 with a new id and inserts a second row with
    the same email: the existence test goes through the credential lookup,
    which also compares the password. *)
Theorem register_existing_email_inserts :
  post_users_register env0 50 register_again db_alice
  = Some ({| status := 200;
             body := JSession 2 "alice@example.org"
                       (generateAccessToken env0 50
                          {| id := 2; email := "alice@example.org" |})
                       (generateRefreshToken env0 50
                          {| id := 2; email := "alice@example.org" |}) |},
          {| users :=
               [ alice_row;
                 {| u_id := 2; u_email := "alice@example.org";
                    u_password := "other"; first_name := "Mallory";
                    last_name := "M"; phone_number := "557" |} ];
             events := []; next_user_id := 3; next_event_id := 1 |}).
Proof. reflexivity. Qed.

(** With the stored password the same request is answered 409. *)
Lemma register_same_credentials_conflict env now b db i :
  truthy_string (r_email b) = true →
  truthy_string (r_password b) = true →
  truthy_string (r_first_name b) = true →
  truthy_string (r_last_name b) = true →
  truthy_string (r_phone_number b) = true →
  r_confirm_password b = r_password b →
  findUserBasedOnCredentials (default "" (r_email b))
    (default "" (r_password b)) db = Fulfilled (Some i) →
  post_users_register env now b db
  = Some ({| status := 409; body := JMessage "User already exists" |}, db).
Proof.
  intros He Hp Hf Hl Hn Hc Hfind. unfold post_users_register.
  rewrite Hc, He, Hp, Hf, Hl, Hn. simpl.
  rewrite bool_decide_eq_false_2 by (intros Hne; by apply Hne).
  by rewrite Hfind.
Qed.

(** ** Ownership of event rows *)

Lemma getEvents_own uid db rows :
  getEvents uid db = Fulfilled rows →
  ∀ e, e ∈ rows ↔ e ∈ events db ∧ user_id e = uid.
Proof.
  intros [= <-] e. rewrite list_elem_of_filter. tauto.
Qed.

Lemma getEventById_own eid uid db e :
  getEventById eid uid db = Fulfilled (Some e) →
  e ∈ events db ∧ e_id e = eid ∧ user_id e = uid.
Proof.
  intros [= Hhead].
  apply head_Some_elem_of, list_elem_of_filter in Hhead. tauto.
Qed.

Lemma removeEvent_keeps_other_owners eid uid db e :
  user_id e ≠ uid →
  e ∈ events (snd (removeEvent eid uid db)) ↔ e ∈ events db.
Proof.
  intros Hne. simpl. rewrite list_elem_of_filter. tauto.
Qed.

Lemma get_events_only_own env now h db r :
  get_events env now h db = Some r →
  ∀ rows, body r = JEvents rows → ∀ e, e ∈ rows → e ∈ events db ∧
    ∃ c, verifyToken env now h = Next c ∧ user_id e = tok_id c.
Proof.
  unfold get_events. destruct (verifyToken env now h) as [r' | c] eqn:Hv.
  - intros [= <-] rows Hb. unfold verifyToken in Hv.
    destruct (negb _); [by injection Hv as <- |].
    destruct (jwt_verify _ _ _); [discriminate | by injection Hv as <-].
  - simpl. intros [= <-] rows [= <-] e He.
    apply list_elem_of_filter in He as [Hu Hin]. eauto.
Qed.

(** C1: PUT /events/:id changes a row of another user. Alice, with her own
    access token, names Bob's event 8: the handler answers 204 and the
    stored row, still owned by Bob, now holds the fields of her request. The
    UPDATE statement selects by id alone, where the list, fetch and delete
    statements also select by owner. *)
Theorem put_events_id_reaches_other_owner :
  put_events_id env0 100
    (Some [Plain "Bearer"; generateAccessToken env0 0 alice]) 8 put_body
    db_events
  = Some ({| status := 204; body := JNone |},
          with_events
            [ ev_alice;
              {| e_id := 8; name := Some "Cancelled"; description := None;
                 location := None; from_date := Some 0; to_date := Some 1;
                 contact := None; user_id := 2 |} ]
            db_events).
Proof. reflexivity. Qed.

(** ** Refresh *)

Lemma post_users_refresh_verified env now tok user redis :
  jwt_verify (Some tok) (REFRESH_TOKEN_SECRET env) now = Some user →
  Serverless.post_users_refresh env now (Some tok) redis
  = ({| status := 200;
        body := JTokens
                  (generateAccessToken env now (identity_of_claims user))
                  (generateRefreshToken env now (identity_of_claims user)) |},
     {[generateRefreshToken env now (identity_of_claims user)]}
       ∪ (redis ∖ {[tok]})).
Proof.
  intros Hv. unfold Serverless.post_users_refresh.
  destruct tok as [s | p k]; [discriminate |]. simpl truthy_text.
  simpl negb. cbv iota. by rewrite Hv.
Qed.

Lemma jwt_verify_refresh_token env issued now user :
  jwt_verify (Some (generateRefreshToken env issued user))
    (REFRESH_TOKEN_SECRET env) now
  = Some (Claims (id user) (email user) issued None).
Proof.
  unfold generateRefreshToken, jwt_verify, jwt_sign. simpl.
  by rewrite bool_decide_eq_true_2.
Qed.

(** C2: a refresh token that verifies but is not in the Session Registry
    is answered 200 with a new token pair, not 403: the membership test
    looks at the promise, not at what it resolves to. *)
Theorem refresh_accepts_token_not_in_registry :
  (generateRefreshToken env0 0 alice ∉ (∅ : gset text))
  ∧ Serverless.post_users_refresh env0 10
      (Some (generateRefreshToken env0 0 alice)) ∅
    = ({| status := 200;
          body := JTokens (generateAccessToken env0 10 alice)
                    (generateRefreshToken env0 10 alice) |},
       {[generateRefreshToken env0 10 alice]}
         ∪ (∅ ∖ {[generateRefreshToken env0 0 alice]})).
Proof.
  split; [apply not_elem_of_empty |].
  apply (post_users_refresh_verified env0 10 _
           (Claims 1 "alice@example.org" 0 None)).
  apply jwt_verify_refresh_token.
Qed.

(** C3: a first refresh with a live token answers 200 and takes the token
    out of the Session Registry; a second refresh with the same token is
    answered 200 again instead of being refused. *)
Theorem refresh_reuse_is_accepted :
  status (fst (Serverless.post_users_refresh env0 10
                 (Some (generateRefreshToken env0 0 alice))
                 {[generateRefreshToken env0 0 alice]})) = 200
  ∧ (generateRefreshToken env0 0 alice
     ∉ snd (Serverless.post_users_refresh env0 10
              (Some (generateRefreshToken env0 0 alice))
              {[generateRefreshToken env0 0 alice]}))
  ∧ status (fst (Serverless.post_users_refresh env0 20
                   (Some (generateRefreshToken env0 0 alice))
                   (snd (Serverless.post_users_refresh env0 10
                           (Some (generateRefreshToken env0 0 alice))
                           {[generateRefreshToken env0 0 alice]})))) = 200.
Proof.
  rewrite !(post_users_refresh_verified _ _ _ _ _
              (jwt_verify_refresh_token env0 0 _ alice)).
  simpl. split_and!; [done | | done].
  intros [Hnew | Hold]%elem_of_union.
  - apply elem_of_singleton in Hnew. discriminate.
  - apply elem_of_difference in Hold as [_ Hold]. apply Hold.
    by apply elem_of_singleton.
Qed.

(** ** The date-filtered query *)

Lemma date_matches_datetime_midnight f d :
  date_matches_datetime f (d * MILISECONDS_IN_A_DAY)
  = bool_decide (f `div` MILISECONDS_IN_A_DAY = d).
Proof.
  unfold date_matches_datetime. apply bool_decide_ext.
  unfold MILISECONDS_IN_A_DAY. lia.
Qed.

Lemma date_matches_day_midnight f d :
  date_matches_day f (d * MILISECONDS_IN_A_DAY)
  = bool_decide (f `div` MILISECONDS_IN_A_DAY = d).
Proof.
  unfold date_matches_day. apply bool_decide_ext.
  rewrite Z.div_mul by done. tauto.
Qed.

Lemma fixed_zone_wall_clock q w :
  of_wall_clock (fixed_zone q) w
  - getTimezoneOffset (fixed_zone q) (of_wall_clock (fixed_zone q) w)
    * 60 * 1000 = w.
Proof. unfold getTimezoneOffset. simpl. lia. Qed.

Lemma hours_to_milliseconds (offset : Z) :
  offset * ((60 * 60 * 1000) `div` 60) = offset * 60 * 1000.
Proof. change ((60 * 60 * 1000) `div` 60) with 60000. lia. Qed.

Lemma TimeClip_in_range (t : Z) :
  Z.abs t ≤ 100000000 * MILISECONDS_IN_A_DAY → TimeClip t = Some t.
Proof. intros Hr. unfold TimeClip. by rewrite bool_decide_eq_true_2. Qed.

(** The rows the query returns, by the parameter it binds. *)
Lemma getEventForCertainDate_rows date_matches tz date uid db t :
  Date_getTime tz date = Some t →
  Z.abs (t - getTimezoneOffset tz t * 60 * 1000)
    ≤ 100000000 * MILISECONDS_IN_A_DAY →
  ∃ rows,
    getEventForCertainDate date_matches tz date uid db = Fulfilled rows
    ∧ ∀ e, e ∈ rows ↔
        e ∈ events db ∧ user_id e = uid
        ∧ ∃ f, from_date e = Some f
               ∧ date_matches f (t - getTimezoneOffset tz t * 60 * 1000)
                 = true.
Proof.
  intros Ht Hr. unfold getEventForCertainDate. rewrite Ht.
  cbv zeta. rewrite hours_to_milliseconds, TimeClip_in_range by done.
  eexists. split; [reflexivity |]. intros e. rewrite list_elem_of_filter.
  unfold where_date. destruct (from_date e) as [f |]; split.
  - intros [[Hm Hu] Hin]. eauto 6.
  - intros (Hin & Hu & f' & [= <-] & Hm). done.
  - intros [[Hm _] _]. discriminate.
  - intros (_ & _ & f' & Hf & _). discriminate.
Qed.

(** Under either reading of the store's comparison, the date-only string
    2024-03-15 finds Alice's event of that day on a server running at UTC
    and finds nothing on a server running five hours behind UTC. *)
Example date_query_two_readings :
  getEventForCertainDate date_matches_datetime (fixed_zone 0)
    (DateOnly march_15) 1 db_events = Fulfilled [ev_alice]
  ∧ getEventForCertainDate date_matches_datetime (fixed_zone 20)
      (DateOnly march_15) 1 db_events = Fulfilled []
  ∧ getEventForCertainDate date_matches_day (fixed_zone 0)
      (DateOnly march_15) 1 db_events = Fulfilled [ev_alice]
  ∧ getEventForCertainDate date_matches_day (fixed_zone 20)
      (DateOnly march_15) 1 db_events = Fulfilled [].
Proof. split_and!; reflexivity. Qed.

(** For a date-only string, a server fourteen hours ahead of UTC and a
    server ten hours behind UTC asked for the next day bind the same
    parameter, and so return the same rows (all instants in the range of
    Date). *)
Lemma date_only_zones_collide date_matches day uid db :
  Z.abs (day * MILISECONDS_IN_A_DAY) + MILISECONDS_IN_A_DAY
    ≤ 100000000 * MILISECONDS_IN_A_DAY →
  getEventForCertainDate date_matches (fixed_zone (-56)) (DateOnly day)
    uid db
  = getEventForCertainDate date_matches (fixed_zone 40)
      (DateOnly (day + 1)) uid db.
Proof.
  intros Hr. unfold getEventForCertainDate. simpl Date_getTime.
  rewrite (TimeClip_in_range (day * MILISECONDS_IN_A_DAY))
    by (unfold MILISECONDS_IN_A_DAY in *; lia).
  rewrite (TimeClip_in_range ((day + 1) * MILISECONDS_IN_A_DAY))
    by (unfold MILISECONDS_IN_A_DAY in *; lia).
  cbv beta iota zeta.
  rewrite !hours_to_milliseconds. unfold getTimezoneOffset. simpl quarters.
  replace (day * MILISECONDS_IN_A_DAY - 15 * -56 * 60 * 1000)
    with ((day + 1) * MILISECONDS_IN_A_DAY - 15 * 40 * 60 * 1000)
    by (unfold MILISECONDS_IN_A_DAY; lia).
  reflexivity.
Qed.

(** C4 (as stated) fails, however the store compares: a server fourteen
    hours ahead of UTC asked for 2024-03-15 and a server ten hours behind
    UTC asked for 2024-03-16 bind the same parameter, so they cannot return
    Alice's event of 2024-03-15 to the first request and no row to the
    second, as the claim requires of both servers. *)
Lemma date_query_depends_on_server_zone :
  ¬ ∃ date_matches : Z → Z → bool,
      getEventForCertainDate date_matches (fixed_zone (-56))
        (DateOnly march_15) 1 db_events = Fulfilled [ev_alice]
      ∧ getEventForCertainDate date_matches (fixed_zone 40)
          (DateOnly (march_15 + 1)) 1 db_events = Fulfilled [].
Proof.
  intros (dm & H1 & H2).
  destruct (getEventForCertainDate_rows dm (fixed_zone (-56))
              (DateOnly march_15) 1 db_events _ eq_refl)
    as (rows1 & Hq1 & Hrows1); [by vm_compute |].
  destruct (getEventForCertainDate_rows dm (fixed_zone 40)
              (DateOnly (march_15 + 1)) 1 db_events _ eq_refl)
    as (rows2 & Hq2 & Hrows2); [by vm_compute |].
  rewrite H1 in Hq1. rewrite H2 in Hq2.
  injection Hq1 as <-. injection Hq2 as <-.
  assert (Hin : ev_alice ∈ [ev_alice]) by apply list_elem_of_here.
  apply Hrows1 in Hin as (Hdb & Hu & f & Hf & Hm).
  apply (not_elem_of_nil ev_alice), Hrows2.
  split_and!; [done | done |]. exists f. split; [done |].
  exact Hm.
Qed.

(** C4 (amended): when the requested date is a zone-less date-time at
    midnight of a calendar day, which the server reads in its own time
    zone, the query returns exactly the caller's rows whose stored from_date
    lies on that calendar day, the same rows on every server, provided
    that the store matches a parameter at midnight UTC of a day against
    exactly the rows whose from_date has that date, that this local
    midnight exists in the server's zone (the instant the server reads the
    string as, shifted by the zone's offset at that instant, is the
    requested midnight again), and that both instants are in the range of
    Date. *)
Theorem getEventForCertainDate_local_midnight
    (date_matches : Z → Z → bool) (tz : timezone) (day uid : Z)
    (db : database) :
  (∀ f d, date_matches f (d * MILISECONDS_IN_A_DAY)
          = bool_decide (f `div` MILISECONDS_IN_A_DAY = d)) →
  of_wall_clock tz (day * MILISECONDS_IN_A_DAY)
  - getTimezoneOffset tz (of_wall_clock tz (day * MILISECONDS_IN_A_DAY))
    * 60 * 1000 = day * MILISECONDS_IN_A_DAY →
  Z.abs (of_wall_clock tz (day * MILISECONDS_IN_A_DAY))
    ≤ 100000000 * MILISECONDS_IN_A_DAY →
  Z.abs (day * MILISECONDS_IN_A_DAY) ≤ 100000000 * MILISECONDS_IN_A_DAY →
  getEventForCertainDate date_matches tz
    (DateTimeLocal (day * MILISECONDS_IN_A_DAY)) uid db
  = Fulfilled
      (filter (λ e, (λ f, f `div` MILISECONDS_IN_A_DAY) <$> from_date e
                    = Some day ∧ user_id e = uid) (events db)).
Proof.
  intros Hdm Hwall Hread Hday. unfold getEventForCertainDate.
  simpl Date_getTime. rewrite TimeClip_in_range by done.
  cbv beta iota zeta.
  rewrite hours_to_milliseconds, Hwall, TimeClip_in_range by done.
  f_equal. apply list_filter_iff. intros e.
  unfold where_date. destruct (from_date e) as [f |]; simpl.
  - rewrite Hdm, bool_decide_eq_true. split; intros [H1 H2]; split;
      congruence.
  - split; intros [H1 _]; discriminate.
Qed.

Lemma getEventForCertainDate_local_midnight_witness :
  getEventForCertainDate date_matches_datetime (fixed_zone (-8))
    (DateTimeLocal (march_15 * MILISECONDS_IN_A_DAY)) 1 db_events
  = Fulfilled
      (filter (λ e, (λ f, f `div` MILISECONDS_IN_A_DAY) <$> from_date e
                    = Some march_15 ∧ user_id e = 1) (events db_events)).
Proof.
  apply (getEventForCertainDate_local_midnight date_matches_datetime
           (fixed_zone (-8)) march_15 1 db_events).
  - apply date_matches_datetime_midnight.
  - apply fixed_zone_wall_clock.
  - by vm_compute.
  - by vm_compute.
Defined.

Example local_midnight_rows :
  filter (λ e, (λ f, f `div` MILISECONDS_IN_A_DAY) <$> from_date e
               = Some march_15 ∧ user_id e = 1) (events db_events)
  = [ev_alice].
Proof. reflexivity. Qed.

(** On a server whose zone skips the requested midnight (as Havana's
    does on the night its summer time begins, when clocks go from 00:00 to
    01:00), the string is read as 01:00 local time and the parameter is one
    hour past midnight: read as date-times, the store then matches no row
    of that day. *)
Example local_midnight_skipped :
  getEventForCertainDate date_matches_datetime
    {| quarters := λ _, 16; of_wall_clock := λ w, w + 5 * 3600000 |}
    (DateTimeLocal (march_15 * MILISECONDS_IN_A_DAY)) 1 db_events
  = Fulfilled [].
Proof. reflexivity. Qed.

(** * Further properties of the routes *)

(** ** Access tokens *)

Lemma identity_of_claims_signed user issued e :
  identity_of_claims (Claims (id user) (email user) issued e) = user.
Proof. by destruct user. Qed.

Lemma verifyToken_fresh env issued now user scheme :
  now < issued + 24 * 3600 →
  verifyToken env now (Some [scheme; generateAccessToken env issued user])
  = Next (Claims (id user) (email user) issued (Some (issued + 24 * 3600))).
Proof.
  intros Hlt. rewrite (verifyToken_second env now [scheme; _] _ eq_refl).
  unfold generateAccessToken. by rewrite jwt_verify_sign_same_key.
Qed.

Lemma verifyToken_expired env issued now user scheme :
  issued + 24 * 3600 ≤ now →
  verifyToken env now (Some [scheme; generateAccessToken env issued user])
  = Reject {| status := 403; body := JString "Invalid token" |}.
Proof.
  intros Hle. rewrite (verifyToken_second env now [scheme; _] _ eq_refl).
  unfold generateAccessToken, jwt_sign, jwt_verify. simpl.
  rewrite bool_decide_eq_true_2 by done.
  by rewrite bool_decide_eq_true_2 by lia.
Qed.

(** X1: an access token passes the Request Authenticator, which attaches
    the id and email it was issued for, at every time before 24 hours
    after issue, and is answered 403 from that moment on. *)
Theorem access_token_window (env : environment) (issued now : Z)
    (user : identity) (scheme : text) :
  (now < issued + 24 * 3600 →
   ∃ c, verifyToken env now
          (Some [scheme; generateAccessToken env issued user]) = Next c
        ∧ tok_id c = id user ∧ tok_email c = email user)
  ∧ (issued + 24 * 3600 ≤ now →
     verifyToken env now
       (Some [scheme; generateAccessToken env issued user])
     = Reject {| status := 403; body := JString "Invalid token" |}).
Proof.
  split.
  - intros Hlt. eexists. split; [by apply verifyToken_fresh | done].
  - apply verifyToken_expired.
Qed.

Lemma access_token_window_witness :
  verifyToken env0 86400 alice_header
  = Reject {| status := 403; body := JString "Invalid token" |}.
Proof.
  apply (proj2 (access_token_window env0 0 86400 alice (Plain "Bearer"))).
  lia.
Defined.

(** ** Login and logout with the session registry *)

Lemma findUserBasedOnCredentials_hit db u :
  NoDup (u_email <$> users db) → u ∈ users db →
  findUserBasedOnCredentials (u_email u) (u_password u) db
  = Fulfilled (Some {| id := u_id u; email := u_email u |}).
Proof.
  intros Hnd Hin. unfold findUserBasedOnCredentials.
  rewrite (head_filter_unique_email _ u Hnd Hin).
  by rewrite bool_decide_eq_false_2 by (intros Hne; by apply Hne).
Qed.

Lemma findUserBasedOnCredentials_miss db mail pw :
  (∀ u, u ∈ users db → u_email u = mail → u_password u ≠ pw) →
  findUserBasedOnCredentials mail pw db = Fulfilled None.
Proof.
  intros Hmiss. unfold findUserBasedOnCredentials.
  destruct (head _) as [u |] eqn:Hhead; [| done].
  apply head_Some_elem_of, list_elem_of_filter in Hhead as [Hmail Hin].
  by rewrite bool_decide_eq_true_2 by (by apply Hmiss).
Qed.

(** Past the limiter: with emails unique in the user table, POST /users/login with the
    email and stored password of a row answers 200 with that row's id and
    email and a token pair issued for them, and adds the refresh token to
    the Session Registry; with credentials no row has, it answers 401 and
    leaves the registry as it was. *)
Lemma login_opens_session (env : environment) (now : Z)
    (mail pw : string) (db : database) (redis : gset text) :
  NoDup (u_email <$> users db) → mail ≠ "" → pw ≠ "" →
  (∀ u, u ∈ users db → u_email u = mail → u_password u = pw →
     Serverless.post_users_login env now (Some mail) (Some pw) db redis
     = Some ({| status := 200;
                body := JSession (u_id u) (u_email u)
                          (generateAccessToken env now
                             {| id := u_id u; email := u_email u |})
                          (generateRefreshToken env now
                             {| id := u_id u; email := u_email u |}) |},
             {[generateRefreshToken env now
                 {| id := u_id u; email := u_email u |}]} ∪ redis))
  ∧ ((∀ u, u ∈ users db → u_email u = mail → u_password u ≠ pw) →
     Serverless.post_users_login env now (Some mail) (Some pw) db redis
     = Some ({| status := 401; body := JMessage "Invalid credentials" |},
             redis)).
Proof.
  intros Hnd Hmail Hpw. unfold Serverless.post_users_login.
  rewrite !truthy_string_nonempty by done. simpl. split.
  - intros u Hin <- <-. by rewrite findUserBasedOnCredentials_hit.
  - intros Hmiss. by rewrite findUserBasedOnCredentials_miss.
Qed.

Lemma not_elem_of_remove (t : text) (X : gset text) : t ∉ X ∖ {[t]}.
Proof.
  intros [_ Hne]%elem_of_difference. apply Hne. by apply elem_of_singleton.
Qed.

Lemma elem_of_remove_ne (t t' : text) (X : gset text) :
  t' ≠ t → t' ∈ X ∖ {[t]} ↔ t' ∈ X.
Proof.
  intros Hne. rewrite elem_of_difference, elem_of_singleton. tauto.
Qed.

(** X3: POST /users/logout with a valid access token answers 200 and
    removes the refresh token named in the body from the Session Registry,
    whoever that token was issued to; the membership of every other token
    is unchanged. A request the Request Authenticator rejects leaves the
    registry as it was. *)
Theorem logout_revokes_named_token (env : environment) (now : Z)
    (h : option header_value) (t : text) (redis : gset text) :
  (∀ c, verifyToken env now h = Next c →
     fst (Serverless.post_users_logout env now h (Some t) redis)
     = {| status := 200; body := JMessage "Logged out successfully" |}
     ∧ (t ∉ snd (Serverless.post_users_logout env now h (Some t) redis))
     ∧ ∀ t', t' ≠ t →
         t' ∈ snd (Serverless.post_users_logout env now h (Some t) redis)
         ↔ t' ∈ redis)
  ∧ (∀ r, verifyToken env now h = Reject r →
       Serverless.post_users_logout env now h (Some t) redis = (r, redis)).
Proof.
  unfold Serverless.post_users_logout. split.
  - intros c ->. simpl. split_and!; [done | apply not_elem_of_remove |].
    intros t' Hne. by apply elem_of_remove_ne.
  - by intros r ->.
Qed.

Lemma logout_revokes_named_token_witness :
  fst (Serverless.post_users_logout env0 5 alice_header
         (Some (generateRefreshToken env0 0 alice))
         {[generateRefreshToken env0 0 alice]})
  = {| status := 200; body := JMessage "Logged out successfully" |}.
Proof.
  refine (proj1 (proj1 (logout_revokes_named_token env0 5
            alice_header (generateRefreshToken env0 0 alice)
            {[generateRefreshToken env0 0 alice]}) _ _)).
  unfold alice_header. apply verifyToken_fresh. lia.
Defined.

(** Past the limiter: with emails unique, logging in and then logging out with the
    tokens the login returned (the access token still within its 24 hours)
    puts the Session Registry back exactly as it was, provided the refresh
    token was not in it before. *)
Lemma login_then_logout_restores (env : environment) (now later : Z)
    (u : user) (scheme : text) (db : database) (redis : gset text) :
  NoDup (u_email <$> users db) → u ∈ users db →
  u_email u ≠ "" → u_password u ≠ "" →
  later < now + 24 * 3600 →
  generateRefreshToken env now {| id := u_id u; email := u_email u |}
    ∉ redis →
  ∃ access refresh redis1,
    Serverless.post_users_login env now (Some (u_email u))
      (Some (u_password u)) db redis
    = Some ({| status := 200;
               body := JSession (u_id u) (u_email u) access refresh |},
            redis1)
    ∧ refresh ∈ redis1
    ∧ Serverless.post_users_logout env later (Some [scheme; access])
        (Some refresh) redis1
      = ({| status := 200; body := JMessage "Logged out successfully" |},
         redis).
Proof.
  intros Hnd Hin Hmail Hpw Hlater Hnew. do 3 eexists.
  unfold Serverless.post_users_login.
  rewrite !truthy_string_nonempty by done. simpl.
  rewrite findUserBasedOnCredentials_hit by done. simpl.
  split_and!; [reflexivity | |].
  - apply elem_of_union_l. by apply elem_of_singleton.
  - unfold Serverless.post_users_logout.
    rewrite verifyToken_fresh by done. simpl. f_equal.
    apply set_eq. intros t.
    rewrite elem_of_difference, elem_of_union, elem_of_singleton.
    split; [tauto |]. intros Ht. split; [tauto |]. by intros ->.
Qed.

(** ** Refresh *)

(** X5: POST /users/refresh in the serverless deployment, given a refresh
    token issued for a user, answers 200 with an access and a refresh token
    issued now for the same id and email, whatever the Session Registry
    holds. Afterwards the new refresh token is in the registry; the
    presented one is in it exactly when the call falls in the second the
    token was issued in (the new token is then the same string); no other
    token's membership changes. *)
Theorem refresh_rotation (env : environment) (issued now : Z)
    (user : identity) (redis : gset text) :
  ∃ redis',
    Serverless.post_users_refresh env now
      (Some (generateRefreshToken env issued user)) redis
    = ({| status := 200;
          body := JTokens (generateAccessToken env now user)
                    (generateRefreshToken env now user) |}, redis')
    ∧ generateRefreshToken env now user ∈ redis'
    ∧ (generateRefreshToken env issued user ∈ redis' ↔ now = issued)
    ∧ ∀ t, t ≠ generateRefreshToken env issued user →
           t ≠ generateRefreshToken env now user →
           (t ∈ redis' ↔ t ∈ redis).
Proof.
  eexists. rewrite (post_users_refresh_verified _ _ _ _ _
                      (jwt_verify_refresh_token env issued now user)).
  rewrite identity_of_claims_signed. split_and!; [reflexivity | | |].
  - apply elem_of_union_l. by apply elem_of_singleton.
  - rewrite elem_of_union, elem_of_singleton. split.
    + intros [Heq | Hin].
      * unfold generateRefreshToken, jwt_sign in Heq. by injection Heq.
      * by apply not_elem_of_remove in Hin.
    + intros ->. by left.
  - intros t Hold Hnew.
    rewrite elem_of_union, elem_of_singleton, elem_of_remove_ne by done.
    tauto.
Qed.

(** X6: without a session registry a refresh token has no end of life: at
    any time after issue POST /users/refresh answers 200 with a new pair
    for the same id and email, and the access token of that pair passes
    the Request Authenticator. *)
Theorem stateless_refresh_never_expires (env : environment)
    (issued now : Z) (user : identity) (scheme : text) :
  Standalone.post_users_refresh_stateless env now
    (Some (generateRefreshToken env issued user))
  = {| status := 200;
       body := JTokens (generateAccessToken env now user)
                 (generateRefreshToken env now user) |}
  ∧ ∃ c, verifyToken env now
           (Some [scheme; generateAccessToken env now user]) = Next c
         ∧ tok_id c = id user ∧ tok_email c = email user.
Proof.
  split.
  - unfold Standalone.post_users_refresh_stateless.
    change (truthy_text (Some (generateRefreshToken env issued user)))
      with true. simpl negb. cbv iota.
    rewrite jwt_verify_refresh_token.
    by rewrite identity_of_claims_signed.
  - eexists. split; [apply verifyToken_fresh; lia | done].
Qed.

(** ** Registration *)

Lemma post_users_register_complete env now mail pw first last phone db :
  mail ≠ "" → pw ≠ "" → first ≠ "" → last ≠ "" → phone ≠ "" →
  findUserBasedOnCredentials mail pw db = Fulfilled None →
  post_users_register env now (complete_body mail pw first last phone) db
  = Some ({| status := 200;
             body := JSession (next_user_id db) mail
                       (generateAccessToken env now
                          {| id := next_user_id db; email := mail |})
                       (generateRefreshToken env now
                          {| id := next_user_id db; email := mail |}) |},
          snd (insert_user mail pw first last phone db)).
Proof.
  intros Hm Hp Hf Hl Hn Hfind. unfold post_users_register, complete_body.
  cbn [r_email r_password r_first_name r_last_name r_phone_number
       r_confirm_password].
  rewrite !truthy_string_nonempty by done. simpl negb. simpl orb.
  cbv iota. rewrite bool_decide_eq_false_2 by (intros Hne; by apply Hne).
  change (default "" (Some mail)) with mail.
  change (default "" (Some pw)) with pw. rewrite Hfind. reflexivity.
Qed.

Lemma filter_email_fresh mail (l : list user) :
  (∀ u, u ∈ l → u_email u ≠ mail) →
  filter (λ u, u_email u = mail) l = [].
Proof.
  intros Hfresh. induction l as [| v l IH]; [done |].
  rewrite filter_cons, decide_False.
  - apply IH. intros u Hu. apply Hfresh. by right.
  - apply Hfresh. by left.
Qed.

(** Past the limiter: registering an email that no row holds answers 200 with the id
    the store assigned; from then on the credential lookup with the
    registered email and password returns that id, and the lookup for any
    other email gives what it gave before. *)
Lemma register_then_lookup (env : environment) (now : Z)
    (mail pw first last phone : string) (db : database) :
  mail ≠ "" → pw ≠ "" → first ≠ "" → last ≠ "" → phone ≠ "" →
  (∀ u, u ∈ users db → u_email u ≠ mail) →
  ∃ r db',
    post_users_register env now (complete_body mail pw first last phone) db
    = Some (r, db')
    ∧ status r = 200
    ∧ findUserBasedOnCredentials mail pw db'
      = Fulfilled (Some {| id := next_user_id db; email := mail |})
    ∧ ∀ m p, m ≠ mail →
        findUserBasedOnCredentials m p db'
        = findUserBasedOnCredentials m p db.
Proof.
  intros Hm Hp Hf Hl Hn Hfresh. do 2 eexists.
  rewrite post_users_register_complete; try done.
  - split_and!; [reflexivity | done | |].
    + unfold findUserBasedOnCredentials. simpl.
      rewrite filter_app, (filter_email_fresh mail (users db) Hfresh).
      rewrite filter_cons, decide_True by done. simpl.
      by rewrite bool_decide_eq_false_2 by (intros Hne; by apply Hne).
    + intros m p Hne. unfold findUserBasedOnCredentials. simpl.
      rewrite filter_app, filter_cons, decide_False by (simpl; congruence).
      by rewrite filter_nil, app_nil_r.
  - apply findUserBasedOnCredentials_miss. intros u Hu He.
    by destruct (Hfresh u Hu).
Qed.

(** Past the limiter: a registration request with a required field missing or empty, or
    with a confirm_password that differs from the password, is answered
    400 and inserts nothing. *)
Lemma register_rejects_incomplete (env : environment) (now : Z)
    (b : register_body) (db : database) :
  truthy_string (r_email b) = false ∨ truthy_string (r_password b) = false
  ∨ truthy_string (r_first_name b) = false
  ∨ truthy_string (r_last_name b) = false
  ∨ truthy_string (r_phone_number b) = false
  ∨ truthy_string (r_confirm_password b) = false
  ∨ r_password b ≠ r_confirm_password b →
  ∃ r, post_users_register env now b db = Some (r, db) ∧ status r = 400.
Proof.
  intros Hbad. unfold post_users_register.
  destruct (_ || _) eqn:Hmissing; [by eexists |].
  destruct Hbad as [H | [H | [H | [H | [H | [H | H]]]]]];
    try (rewrite H in Hmissing; simpl in Hmissing;
         rewrite ?orb_true_r in Hmissing; discriminate).
  rewrite bool_decide_eq_true_2 by done. by eexists.
Qed.

(** Past the limiter: when the first row with an email holds another password, a
    registration with that email is answered 200, yet a login with the
    email and password just registered is answered 401: the credential
    lookup still reads the older row. *)
Lemma register_shadowed_by_older_row (env : environment) (now later : Z)
    (mail pw first last phone : string) (db : database) (u0 : user) :
  mail ≠ "" → pw ≠ "" → first ≠ "" → last ≠ "" → phone ≠ "" →
  head (filter (λ u, u_email u = mail) (users db)) = Some u0 →
  u_password u0 ≠ pw →
  ∃ r db',
    post_users_register env now (complete_body mail pw first last phone) db
    = Some (r, db')
    ∧ status r = 200
    ∧ Standalone.post_users_login_stateless env later (Some mail) (Some pw)
        db'
      = Some {| status := 401; body := JMessage "Invalid credentials" |}.
Proof.
  intros Hm Hp Hf Hl Hn Hhead Hpw. do 2 eexists.
  rewrite post_users_register_complete; try done.
  - split_and!; [reflexivity | done |].
    unfold Standalone.post_users_login_stateless.
    rewrite !truthy_string_nonempty by done. simpl.
    unfold findUserBasedOnCredentials. simpl. rewrite filter_app.
    destruct (filter _ (users db)) as [| v l]; [discriminate |].
    injection Hhead as ->. simpl.
    by rewrite bool_decide_eq_true_2.
  - unfold findUserBasedOnCredentials. rewrite Hhead.
    by rewrite bool_decide_eq_true_2.
Qed.

(** ** Event routes *)

(** Past the limiter: GET /events with a valid access token answers 200 with exactly
    the stored rows whose owner is the id in the token. *)
Lemma get_events_lists_own (env : environment) (now : Z)
    (h : option header_value) (c : claims) (db : database) :
  verifyToken env now h = Next c →
  ∃ rows,
    get_events env now h db = Some {| status := 200; body := JEvents rows |}
    ∧ ∀ e, e ∈ rows ↔ e ∈ events db ∧ user_id e = tok_id c.
Proof.
  intros Hv. unfold get_events. rewrite Hv. simpl. eexists.
  split; [reflexivity |]. intros e. rewrite list_elem_of_filter. tauto.
Qed.

(** Past the limiter: GET /events/:id with a valid access token sends a row only if
    that row is stored, has the id asked for and is owned by the caller.
    When no row with that id is owned by the caller, so also when the id
    names another user's event, the answer is 200 with an empty body. *)
Lemma get_events_id_own (env : environment) (now : Z)
    (h : option header_value) (c : claims) (eid : Z) (db : database) :
  verifyToken env now h = Next c →
  (∀ r e, get_events_id env now h eid db = Some r → body r = JEvent e →
     e ∈ events db ∧ e_id e = eid ∧ user_id e = tok_id c)
  ∧ ((∀ e, e ∈ events db → e_id e = eid → user_id e ≠ tok_id c) →
     get_events_id env now h eid db
     = Some {| status := 200; body := JNone |})
  ∧ (∀ e, e ∈ events db → e_id e = eid → user_id e = tok_id c →
     ∃ e', get_events_id env now h eid db
           = Some {| status := 200; body := JEvent e' |}).
Proof.
  intros Hv. unfold get_events_id. rewrite Hv. simpl. split_and!.
  - intros r e. destruct (head _) as [e' |] eqn:Hhead.
    + intros [= <-] [= <-].
      apply head_Some_elem_of, list_elem_of_filter in Hhead. tauto.
    + by intros [= <-].
  - intros Hnone. destruct (head _) as [e' |] eqn:Hhead; [| done].
    apply head_Some_elem_of, list_elem_of_filter in Hhead
      as [[Hid Hown] Hin].
    by destruct (Hnone e' Hin Hid).
  - intros e Hin Hid Hown.
    destruct (filter _ (events db)) as [| e' l] eqn:Hf.
    + assert (He : e ∈ filter (λ e, e_id e = eid ∧ user_id e = tok_id c)
                         (events db))
        by (by apply list_elem_of_filter).
      rewrite Hf in He. by apply elem_of_nil in He.
    + by eexists.
Qed.

Lemma filter_out_then_in {A : Type} (P : A → Prop) `{∀ x, Decision (P x)}
    (l : list A) :
  filter P (filter (λ x, ¬ P x) l) = [].
Proof.
  induction l as [| x l IH]; [done |].
  rewrite filter_cons. destruct (decide (¬ P x)) as [Hn | Hp]; [| done].
  by rewrite filter_cons, decide_False.
Qed.

(** Past the limiter: DELETE /events/:id with a valid access token answers 204 whether
    or not a row was there to delete. It removes exactly the rows with that
    id owned by the caller: every other row, in particular every row of
    another user, stays, the user table is untouched, and a fetch of the id
    by the caller then finds nothing. *)
Lemma delete_events_id_effect (env : environment) (now : Z)
    (h : option header_value) (c : claims) (eid : Z) (db : database) :
  verifyToken env now h = Next c →
  ∃ db',
    delete_events_id env now h eid db
    = Some ({| status := 204; body := JNone |}, db')
    ∧ (∀ e, e ∈ events db'
            ↔ e ∈ events db ∧ ¬ (e_id e = eid ∧ user_id e = tok_id c))
    ∧ users db' = users db
    ∧ getEventById eid (tok_id c) db' = Fulfilled None.
Proof.
  intros Hv. unfold delete_events_id. rewrite Hv. simpl. eexists.
  split_and!; [reflexivity | | done |].
  - intros e. simpl. rewrite list_elem_of_filter. tauto.
  - unfold getEventById. simpl.
    by rewrite (filter_out_then_in
                  (λ e, e_id e = eid ∧ user_id e = tok_id c)).
Qed.

(** Past the limiter: POST /events with a valid access token answers 201 with the id
    the store assigned and stores the body as a row owned by the caller:
    the caller's list is the old list followed by the new row, every other
    user's list is unchanged, and, when the assigned id was not in use, a
    fetch of that id by the caller returns the new row. *)
Lemma post_events_then_read (env : environment) (now : Z)
    (h : option header_value) (c : claims) (b : event_body)
    (db : database) :
  verifyToken env now h = Next c →
  ∃ db',
    post_events env now h b db
    = Some ({| status := 201; body := JId (next_event_id db) |}, db')
    ∧ getEvents (tok_id c) db'
      = Fulfilled (filter (λ e, user_id e = tok_id c) (events db)
                   ++ [created_row b (tok_id c) db])
    ∧ (∀ other, other ≠ tok_id c →
         getEvents other db' = getEvents other db)
    ∧ ((∀ e, e ∈ events db → e_id e ≠ next_event_id db) →
       getEventById (next_event_id db) (tok_id c) db'
       = Fulfilled (Some (created_row b (tok_id c) db))).
Proof.
  intros Hv. unfold post_events. rewrite Hv. simpl. eexists.
  split_and!; [reflexivity | | |].
  - unfold getEvents. simpl. rewrite filter_app.
    by rewrite filter_cons, decide_True.
  - intros other Hne. unfold getEvents. simpl. rewrite filter_app.
    rewrite filter_cons, decide_False by (simpl; congruence).
    by rewrite filter_nil, app_nil_r.
  - intros Hfresh. unfold getEventById. simpl. rewrite filter_app.
    replace (filter (λ e, e_id e = next_event_id db ∧ user_id e = tok_id c)
               (events db)) with (@nil event).
    + by rewrite filter_cons, decide_True.
    + symmetry. induction (events db) as [| e l IH]; [done |].
      rewrite filter_cons, decide_False.
      * apply IH. intros e' He'. apply Hfresh. by right.
      * intros [Hid _]. by apply (Hfresh e); [left |].
Qed.

(** Past the limiter: PUT /events/:id with a valid access token answers 400 and changes
    nothing when name, from_date or to_date is missing. Otherwise it
    answers 204, also when no row has the id; the rows keep their ids and
    owners in the same order, every row with that id holds the fields of
    the body, every row with another id is unchanged, and the user table
    is untouched. *)
Lemma put_events_id_effect (env : environment) (now : Z)
    (h : option header_value) (c : claims) (eid : Z) (b : event_body)
    (db : database) :
  verifyToken env now h = Next c →
  ((b_from_date b = None ∨ b_to_date b = None
    ∨ truthy_string (b_name b) = false) →
   put_events_id env now h eid b db
   = Some ({| status := 400; body := JMessage "Missing required fields" |},
           db))
  ∧ (is_Some (b_from_date b) → is_Some (b_to_date b) →
     truthy_string (b_name b) = true →
     ∃ db',
       put_events_id env now h eid b db
       = Some ({| status := 204; body := JNone |}, db')
       ∧ e_id <$> events db' = e_id <$> events db
       ∧ user_id <$> events db' = user_id <$> events db
       ∧ users db' = users db
       ∧ (∀ e, e ∈ events db' → e_id e = eid →
            name e = b_name b ∧ description e = b_description b
            ∧ location e = b_location b ∧ from_date e = b_from_date b
            ∧ to_date e = b_to_date b ∧ contact e = b_contact b)
       ∧ (∀ e, e_id e ≠ eid → e ∈ events db' ↔ e ∈ events db)).
Proof.
  intros Hv. unfold put_events_id. rewrite Hv. split.
  - intros [-> | [-> | ->]]; simpl; by rewrite ?orb_true_r.
  - intros [f Hf] [t Ht] Hn. rewrite Hf, Ht, Hn. simpl. eexists.
    split_and!; [reflexivity | | | done | |];
      unfold with_events; cbn [events].
    + rewrite <- list_fmap_compose. apply list_fmap_ext.
      intros _ e _. simpl. by case_bool_decide.
    + rewrite <- list_fmap_compose. apply list_fmap_ext.
      intros _ e _. simpl. by case_bool_decide.
    + intros e (e0 & -> & Hin)%list_elem_of_fmap.
      case_bool_decide as Hid; simpl; intros He; [| by destruct Hid].
      by split_and!.
    + intros e Hne. rewrite list_elem_of_fmap. split.
      * intros (e0 & -> & Hin). revert Hne.
        case_bool_decide as Hid; [by simpl | done].
      * intros Hin. exists e. by rewrite bool_decide_eq_false_2.
Qed.


(** ** Profile routes *)

Lemma set_column_id key data u : u_id (set_column key data u) = u_id u.
Proof. by destruct key. Qed.

(** Past the limiter: PATCH /users/:id with a valid access token answers 204, also
    when no row has the id, and never 404. It sets the named column in the
    rows with that id, whoever the caller is; ids keep their order, rows
    with another id are unchanged, and the event table is untouched. *)
Lemma patch_users_id_effect (env : environment) (now : Z)
    (h : option header_value) (c : claims) (uid : Z) (key : column)
    (value : string) (db : database) :
  verifyToken env now h = Next c →
  ∃ db',
    patch_users_id env now h uid key value db
    = Some ({| status := 204; body := JNone |}, db')
    ∧ u_id <$> users db' = u_id <$> users db
    ∧ events db' = events db
    ∧ (∀ u, u ∈ users db → u_id u = uid →
         set_column key value u ∈ users db')
    ∧ (∀ u, u_id u ≠ uid → u ∈ users db' ↔ u ∈ users db).
Proof.
  intros Hv. unfold patch_users_id. rewrite Hv. simpl. eexists.
  split_and!; [reflexivity | | done | |]; cbn [users].
  - rewrite <- list_fmap_compose. apply list_fmap_ext.
    intros _ u _. simpl. case_bool_decide; [apply set_column_id | done].
  - intros u Hin Hid. apply list_elem_of_fmap. exists u.
    by rewrite bool_decide_eq_true_2.
  - intros u Hne. rewrite list_elem_of_fmap. split.
    + intros (u0 & -> & Hin). revert Hne.
      case_bool_decide as Hid; [by rewrite set_column_id | done].
    + intros Hin. exists u. by rewrite bool_decide_eq_false_2.
Qed.

(** Past the limiter: with emails unique, any holder of a valid access token can set
    the password of any user through PATCH /users/:id: afterwards the
    credential lookup accepts that user's email with the new password. *)
Lemma patch_password_then_lookup (env : environment) (now : Z)
    (h : option header_value) (c : claims) (victim : user) (pw : string)
    (db : database) :
  verifyToken env now h = Next c →
  NoDup (u_email <$> users db) → victim ∈ users db →
  ∃ db',
    patch_users_id env now h (u_id victim) col_password pw db
    = Some ({| status := 204; body := JNone |}, db')
    ∧ findUserBasedOnCredentials (u_email victim) pw db'
      = Fulfilled (Some {| id := u_id victim; email := u_email victim |}).
Proof.
  intros Hv Hnd Hin. unfold patch_users_id. rewrite Hv. simpl. eexists.
  split; [reflexivity |].
  apply (findUserBasedOnCredentials_hit _ (set_column col_password pw victim)).
  - simpl. rewrite <- list_fmap_compose.
    erewrite list_fmap_ext; [exact Hnd |].
    intros _ u _. simpl. by case_bool_decide.
  - simpl. apply list_elem_of_fmap. exists victim.
    by rewrite bool_decide_eq_true_2.
Qed.

Lemma head_filter_unique_id (l : list user) (u : user) :
  NoDup (u_id <$> l) → u ∈ l →
  head (filter (λ v, u_id v = u_id u) l) = Some u.
Proof.
  induction l as [| v l IH]; intros Hnd Hin.
  - by apply elem_of_nil in Hin.
  - rewrite fmap_cons in Hnd. apply NoDup_cons in Hnd as [Hv Hnd].
    rewrite filter_cons. apply elem_of_cons in Hin as [-> | Hin].
    + by rewrite decide_True.
    + rewrite decide_False; [by apply IH |].
      intros Heq. apply Hv. rewrite Heq.
      apply list_elem_of_fmap. by exists u.
Qed.

(** X18: with ids unique, GET /users/:id with a valid access token of any
    user sends the stored row with that id as it is, the password
    included; when no row has the id it answers 404. *)
Theorem get_users_id_sends_row (env : environment) (now : Z)
    (h : option header_value) (c : claims) (uid : Z) (db : database) :
  verifyToken env now h = Next c →
  NoDup (u_id <$> users db) →
  (∀ u, u ∈ users db → u_id u = uid →
     get_users_id env now h uid db = Some (UserRow u))
  ∧ ((∀ u, u ∈ users db → u_id u ≠ uid) →
     get_users_id env now h uid db
     = Some (UserError {| status := 404;
                          body := JMessage "User not found" |})).
Proof.
  intros Hv Hnd. unfold get_users_id. rewrite Hv. simpl. split.
  - intros u Hin <-. by rewrite head_filter_unique_id.
  - intros Hnone. destruct (head _) as [u |] eqn:Hhead; [| done].
    apply head_Some_elem_of, list_elem_of_filter in Hhead as [Hid Hin].
    by destruct (Hnone u Hin).
Qed.

Lemma get_users_id_sends_row_witness :
  get_users_id env0 5 alice_header 2 db_events = Some (UserRow bob_row).
Proof.
  refine (proj1 (get_users_id_sends_row env0 5 alice_header
            (Claims 1 "alice@example.org" 0 (Some 86400)) 2 db_events _ _)
            bob_row _ _).
  - reflexivity.
  - simpl. apply NoDup_cons. split; [| apply NoDup_singleton].
    intros Hin. apply list_elem_of_singleton in Hin. discriminate.
  - right. left.
  - reflexivity.
Defined.

(** ** Password reset *)

Lemma findUserBasedOnEmail_hit db u :
  NoDup (u_email <$> users db) → u ∈ users db →
  Standalone.findUserBasedOnEmail (u_email u) db
  = Fulfilled (Some {| id := u_id u; email := u_email u |}).
Proof.
  intros Hnd Hin. unfold Standalone.findUserBasedOnEmail.
  rewrite (head_filter_unique_email _ u Hnd Hin).
  by rewrite bool_decide_eq_false_2 by (intros Hne; by apply Hne).
Qed.

Lemma findUserBasedOnEmail_miss db mail :
  (∀ u, u ∈ users db → u_email u ≠ mail) →
  Standalone.findUserBasedOnEmail mail db = Fulfilled None.
Proof.
  intros Hfresh. unfold Standalone.findUserBasedOnEmail.
  by rewrite filter_email_fresh.
Qed.

(** X19: POST /forgot-password for the email of a stored user (emails
    unique), with the mail transport working, answers 200 and hands the
    transport one message, addressed to that user's stored email, whose
    reset token verify-reset-token accepts at every time before one hour
    after the request and which names that user's id. For an email no row
    holds it answers 404 and sends nothing. When the transport fails no
    response is sent at all; in no case is the answer 500. *)
Theorem forgot_password_mails_reset_token (env : environment) (now : Z)
    (mail : string) (db : database) (outbox : list Standalone.mail) :
  mail ≠ "" →
  (∀ u, NoDup (u_email <$> users db) → u ∈ users db → u_email u = mail →
     ∃ tok,
       Standalone.post_forgot_password env now true (Some mail) db outbox
       = Some ({| status := 200; body := JString "OK" |},
               outbox ++ [ {| Standalone.mail_to := u_email u;
                              Standalone.mail_subject := "Reset Password";
                              Standalone.mail_link_token := tok |} ])
       ∧ (∀ later, later < now + 3600 →
            Standalone.post_verify_reset_token env later (Some tok) db
            = ({| status := 200; body := JString "OK" |}, db)
            ∧ Standalone.getUserIdFromResetToken env later (Some tok)
              = Some (u_id u))
       ∧ Standalone.post_forgot_password env now false (Some mail) db outbox
         = None)
  ∧ ((∀ u, u ∈ users db → u_email u ≠ mail) →
     ∀ up, Standalone.post_forgot_password env now up (Some mail) db outbox
           = Some ({| status := 404; body := JMessage "User not found" |},
                   outbox))
  ∧ (∀ up r o,
       Standalone.post_forgot_password env now up (Some mail) db outbox
       = Some (r, o) → status r ≠ 500).
Proof.
  intros Hmail. unfold Standalone.post_forgot_password.
  rewrite truthy_string_nonempty by done. simpl negb. cbv iota.
  change (default "" (Some mail)) with mail. split_and!.
  - intros u Hnd Hin <-. rewrite findUserBasedOnEmail_hit by done.
    eexists. split_and!; [reflexivity | | reflexivity].
    intros later Hlater. split.
    + unfold Standalone.post_verify_reset_token.
      by rewrite isValidResetToken_fresh.
    + by rewrite getUserIdFromResetToken_fresh.
  - intros Hfresh up. by rewrite findUserBasedOnEmail_miss.
  - intros up r o.
    destruct (Standalone.findUserBasedOnEmail mail db) as [[i |] |];
      simpl; [| by intros [= <- _] | done].
    unfold Standalone.sendResetPasswordEmail.
    destruct up; simpl; [by intros [= <- _] | done].
Qed.

Lemma forgot_password_mails_reset_token_witness :
  Standalone.post_forgot_password env0 7 true (Some "nobody@example.org")
    db_alice []
  = Some ({| status := 404; body := JMessage "User not found" |}, []).
Proof.
  refine (proj1 (proj2 (forgot_password_mails_reset_token env0 7
            "nobody@example.org" db_alice [] _)) _ true).
  - discriminate.
  - intros u Hu. simpl in Hu. apply list_elem_of_singleton in Hu.
    subst u. discriminate.
Defined.

Lemma findUserBasedOnCredentials_wrong db u pw :
  NoDup (u_email <$> users db) → u ∈ users db → u_password u ≠ pw →
  findUserBasedOnCredentials (u_email u) pw db = Fulfilled None.
Proof.
  intros Hnd Hin Hpw. unfold findUserBasedOnCredentials.
  rewrite (head_filter_unique_email _ u Hnd Hin).
  by rewrite bool_decide_eq_true_2.
Qed.

(** Past the limiter: with emails unique, POST /set-new-password with a reset token
    issued for a stored user less than an hour before, and a non-empty
    password, answers 200; from then on a login with that user's email and
    the new password is answered 200 with the user's id, and a login with
    the old password, if it differs, is answered 401. *)
Lemma reset_then_login (env : environment) (issued now later : Z)
    (u : user) (newpw : string) (db : database) :
  NoDup (u_email <$> users db) → u ∈ users db →
  u_email u ≠ "" → u_password u ≠ "" → newpw ≠ "" →
  now < issued + 3600 →
  ∃ db',
    Standalone.post_set_new_password env now
      (Some (Standalone.generateResetToken env issued
               {| id := u_id u; email := u_email u |}))
      (Some newpw) db
    = ({| status := 200; body := JString "OK" |}, db')
    ∧ Standalone.post_users_login_stateless env later (Some (u_email u))
        (Some newpw) db'
      = Some {| status := 200;
                body := JSession (u_id u) (u_email u)
                          (generateAccessToken env later
                             {| id := u_id u; email := u_email u |})
                          (generateRefreshToken env later
                             {| id := u_id u; email := u_email u |}) |}
    ∧ (u_password u ≠ newpw →
       Standalone.post_users_login_stateless env later (Some (u_email u))
         (Some (u_password u)) db'
       = Some {| status := 401; body := JMessage "Invalid credentials" |}).
Proof.
  intros Hnd Hin Hmail Hold Hnew Hlt. eexists.
  rewrite post_set_new_password_valid;
    [| done | by apply truthy_string_nonempty
     | by apply isValidResetToken_fresh].
  rewrite getUserIdFromResetToken_fresh by done.
  change (default "" (Some newpw)) with newpw.
  split; [reflexivity |].
  set (db' := snd (Standalone.setNewPassword newpw _ db)).
  assert (Hnd' : NoDup (u_email <$> users db')).
  { subst db'. simpl. rewrite <- list_fmap_compose.
    erewrite list_fmap_ext; [exact Hnd |].
    intros _ v _. simpl. by case_bool_decide. }
  assert (Hin' : Standalone.set_password newpw u ∈ users db').
  { subst db'. simpl. apply list_elem_of_fmap. exists u.
    by rewrite bool_decide_eq_true_2. }
  unfold Standalone.post_users_login_stateless.
  rewrite !truthy_string_nonempty by done. simpl negb. simpl orb.
  cbv iota. change (default "" (Some ?s)) with s. split.
  - assert (Hhit : findUserBasedOnCredentials (u_email u) newpw db'
                   = Fulfilled (Some {| id := u_id u; email := u_email u |}))
      by exact (findUserBasedOnCredentials_hit db'
                  (Standalone.set_password newpw u) Hnd' Hin').
    by rewrite Hhit.
  - intros Hdiff.
    assert (Hmiss : findUserBasedOnCredentials (u_email u) (u_password u) db'
                    = Fulfilled None).
    { apply (findUserBasedOnCredentials_wrong db'
               (Standalone.set_password newpw u) (u_password u) Hnd' Hin').
      simpl. congruence. }
    by rewrite Hmiss.
Qed.

(** ** Profile images *)

Lemma string_length_app (s t : string) :
  String.length (s +:+ t) = (String.length s + String.length t)%nat.
Proof. induction s as [| a s IH]; simpl; [done | by rewrite IH]. Qed.

Lemma string_app_inj_r (s1 s2 t : string) :
  s1 +:+ t = s2 +:+ t → s1 = s2.
Proof.
  revert s2. induction s1 as [| a s1 IH]; intros [| b s2] Heq; simpl in Heq.
  - done.
  - apply (f_equal String.length) in Heq.
    rewrite ?string_length_app in Heq. simpl in Heq.
    rewrite ?string_length_app in Heq. lia.
  - apply (f_equal String.length) in Heq.
    rewrite ?string_length_app in Heq. simpl in Heq.
    rewrite ?string_length_app in Heq. lia.
  - injection Heq as -> Heq. f_equal. by apply IH.
Qed.

(** X21: with the object store working, an upload for a user id answers
    200 and a later GET /get-profile-image for that id streams exactly the
    uploaded bytes, always as image/jpeg whatever type was uploaded; the
    image any other user id gets is what it was before. *)
Theorem upload_then_get_image (userId : string) (f : file)
    (bucket : gmap string file) :
  ∃ bucket',
    post_upload_profile_image true userId (Some f) bucket
    = Some ({| i_status := 200;
               i_body := IMessage "Image uploaded successfully" |}, bucket')
    ∧ get_profile_image true userId bucket'
      = Some {| i_status := 200;
                i_body := IStream "image/jpeg" (buffer f) |}
    ∧ ∀ other, other ≠ userId →
        get_profile_image true other bucket'
        = get_profile_image true other bucket.
Proof.
  eexists. split_and!; [reflexivity | |].
  - unfold get_profile_image, getFile. simpl.
    by rewrite lookup_insert_eq.
  - intros other Hne. unfold get_profile_image, getFile. simpl.
    rewrite lookup_insert_ne; [done |].
    intros Heq. apply Hne. symmetry. by eapply string_app_inj_r.
Qed.

(** X22: an upload request without a file is answered 400, and an upload
    the object store refuses is answered 500; in both cases the bucket is
    left as it was. GET /get-profile-image answers 204 both when nothing
    was stored for the user id and when the object store fails. *)
Theorem image_routes_failures (userId : string)
    (bucket : gmap string file) :
  (∀ up, post_upload_profile_image up userId None bucket
         = Some ({| i_status := 400; i_body := IError "No image provided" |},
                 bucket))
  ∧ (∀ f, post_upload_profile_image false userId (Some f) bucket
          = Some ({| i_status := 500;
                     i_body := IError "Failed to upload image" |}, bucket))
  ∧ (bucket !! (userId +:+ ".jpg") = None →
     get_profile_image true userId bucket
     = Some {| i_status := 204; i_body := IError "File not found" |})
  ∧ get_profile_image false userId bucket
    = Some {| i_status := 204; i_body := IError "File not found" |}.
Proof.
  split_and!; [done | done | | done].
  intros Hnone. unfold get_profile_image, getFile. simpl.
  by rewrite Hnone.
Qed.

Lemma image_routes_failures_witness :
  get_profile_image true "42" (∅ : gmap string file)
  = Some {| i_status := 204; i_body := IError "File not found" |}.
Proof.
  refine (proj1 (proj2 (proj2 (image_routes_failures "42" ∅))) _).
  apply lookup_empty.
Defined.

(** ** The date route *)

(** Past the limiter: GET /events/date with a valid access token sends
    no response when the date does not parse or when the shifted instant
    leaves the range of Date, because building the query parameter throws;
    otherwise, however the store compares dates, it answers 200 with rows
    that are all stored rows owned by the caller. *)
Lemma get_events_date_rows_own (date_matches : Z → Z → bool)
    (env : environment) (now : Z) (tz : timezone)
    (h : option header_value) (c : claims) (db : database) :
  verifyToken env now h = Next c →
  (∀ date, Date_getTime tz date = None →
     get_events_date date_matches env now tz h date db = None)
  ∧ (∀ date t, Date_getTime tz date = Some t →
       100000000 * MILISECONDS_IN_A_DAY
       < Z.abs (t - getTimezoneOffset tz t * 60 * 1000) →
       get_events_date date_matches env now tz h date db = None)
  ∧ ∀ date t, Date_getTime tz date = Some t →
      Z.abs (t - getTimezoneOffset tz t * 60 * 1000)
        ≤ 100000000 * MILISECONDS_IN_A_DAY →
      ∃ rows,
        get_events_date date_matches env now tz h date db
        = Some {| status := 200; body := JEvents rows |}
        ∧ ∀ e, e ∈ rows → e ∈ events db ∧ user_id e = tok_id c.
Proof.
  intros Hv. unfold get_events_date. rewrite Hv. split_and!.
  - intros date Hnone. unfold getEventForCertainDate. by rewrite Hnone.
  - intros date t Ht Hout. unfold getEventForCertainDate. rewrite Ht.
    cbv zeta. rewrite hours_to_milliseconds. unfold TimeClip.
    by rewrite bool_decide_eq_false_2 by lia.
  - intros date t Ht Hin. unfold getEventForCertainDate. rewrite Ht.
    cbv zeta. rewrite hours_to_milliseconds, TimeClip_in_range by done.
    simpl. eexists. split; [reflexivity |].
    intros e [[_ Hown] He]%list_elem_of_filter. done.
Qed.

(** * The limited routes, with their whole chains *)

(** ** The rate limiter *)

Lemma rateLimit_admits options ip clock store :
  admits options ip clock store →
  rateLimit options ip clock store
  = (None, <[ip := increment options ip clock store]> store).
Proof.
  intros [Hlimit Hroom]. unfold rateLimit.
  rewrite bool_decide_eq_false_2; [done |].
  unfold increment. destruct (store !! ip) as [w |]; simpl; [| lia].
  case_bool_decide; simpl; lia.
Qed.


Lemma limited_admits {A : Type} options ip clock store
    (blocked : response → A) (next : A) :
  admits options ip clock store →
  limited options ip clock store blocked next
  = (next, <[ip := increment options ip clock store]> store).
Proof. intros Hroom. unfold limited. by rewrite rateLimit_admits. Qed.


Lemma admits_fresh options ip clock store :
  1 ≤ limit options → store !! ip = None → admits options ip clock store.
Proof. intros Hl Hnone. split; [done |]. by rewrite Hnone. Qed.




Lemma admits_postLimiter_first clock :
  admits postLimiter alice_ip clock ∅.
Proof. apply admits_fresh; [by vm_compute | apply lookup_empty]. Qed.

Lemma admits_secureLimiter_first clock :
  admits secureLimiter alice_ip clock ∅.
Proof. apply admits_fresh; [by vm_compute | apply lookup_empty]. Qed.

(** Alice's PUT on Bob's event and the repeated registration, sent
    through the whole routes as the first request of an address: the
    limiter lets them through to the chains traced above. *)
Example route_put_events_id_first_request :
  fst (route_put_events_id env0 100000 alice_ip ∅ alice_header 8 put_body
         db_events)
  = put_events_id env0 100 alice_header 8 put_body db_events.
Proof.
  unfold route_put_events_id.
  by rewrite limited_admits by apply admits_postLimiter_first.
Qed.

Example route_post_users_register_first_request :
  fst (route_post_users_register env0 50000 alice_ip ∅ register_again
         db_alice)
  = post_users_register env0 50 register_again db_alice.
Proof.
  unfold route_post_users_register.
  by rewrite limited_admits by apply admits_secureLimiter_first.
Qed.

(** ** Login *)

(** X2: when secureLimiter has room for the client and emails are unique
    in the user table, POST /users/login with the email and stored password
    of a row answers 200 with that row's id and email and a token pair
    issued for them, and adds the refresh token to the Session Registry;
    with credentials no row has, it answers 401 and leaves the registry as
    it was. *)
Theorem route_login_opens_session (env : environment) (clock : Z)
    (ip : string) (store : gmap string client_window) (mail pw : string)
    (db : database) (redis : gset text) :
  admits secureLimiter ip clock store →
  NoDup (u_email <$> users db) → mail ≠ "" → pw ≠ "" →
  (∀ u, u ∈ users db → u_email u = mail → u_password u = pw →
     fst (Serverless.route_post_users_login env clock ip store (Some mail)
            (Some pw) db redis)
     = Some ({| status := 200;
                body := JSession (u_id u) (u_email u)
                          (generateAccessToken env (seconds clock)
                             {| id := u_id u; email := u_email u |})
                          (generateRefreshToken env (seconds clock)
                             {| id := u_id u; email := u_email u |}) |},
             {[generateRefreshToken env (seconds clock)
                 {| id := u_id u; email := u_email u |}]} ∪ redis))
  ∧ ((∀ u, u ∈ users db → u_email u = mail → u_password u ≠ pw) →
     fst (Serverless.route_post_users_login env clock ip store (Some mail)
            (Some pw) db redis)
     = Some ({| status := 401; body := JMessage "Invalid credentials" |},
             redis)).
Proof.
  intros Hroom Hnd Hmail Hpw. unfold Serverless.route_post_users_login.
  rewrite limited_admits by done. simpl fst.
  exact (login_opens_session env (seconds clock) mail pw db redis
           Hnd Hmail Hpw).
Qed.

Lemma route_login_opens_session_witness :
  fst (Serverless.route_post_users_login env0 5000 alice_ip ∅
         (Some "alice@example.org") (Some "guess") db_alice ∅)
  = Some ({| status := 401; body := JMessage "Invalid credentials" |}, ∅).
Proof.
  refine (proj2 (route_login_opens_session env0 5000 alice_ip ∅
                   "alice@example.org" "guess" db_alice ∅ _ _ _ _) _).
  - apply admits_secureLimiter_first.
  - simpl. apply NoDup_singleton.
  - discriminate.
  - discriminate.
  - intros u Hin _. simpl in Hin. apply list_elem_of_singleton in Hin.
    subst u. discriminate.
Defined.

(** X4: when secureLimiter has room for the client and emails are unique,
    logging in and then logging out with the tokens the login returned (the
    access token still within its 24 hours) puts the Session Registry back
    exactly as it was, provided the refresh token was not in it before. *)
Theorem route_login_then_logout_restores (env : environment)
    (clock later : Z) (ip : string) (store : gmap string client_window)
    (u : user) (scheme : text) (db : database) (redis : gset text) :
  admits secureLimiter ip clock store →
  NoDup (u_email <$> users db) → u ∈ users db →
  u_email u ≠ "" → u_password u ≠ "" →
  later < seconds clock + 24 * 3600 →
  generateRefreshToken env (seconds clock)
    {| id := u_id u; email := u_email u |} ∉ redis →
  ∃ access refresh redis1,
    fst (Serverless.route_post_users_login env clock ip store
           (Some (u_email u)) (Some (u_password u)) db redis)
    = Some ({| status := 200;
               body := JSession (u_id u) (u_email u) access refresh |},
            redis1)
    ∧ refresh ∈ redis1
    ∧ Serverless.post_users_logout env later (Some [scheme; access])
        (Some refresh) redis1
      = ({| status := 200; body := JMessage "Logged out successfully" |},
         redis).
Proof.
  intros Hroom Hnd Hin Hmail Hpw Hlater Hnew.
  unfold Serverless.route_post_users_login.
  rewrite limited_admits by done. simpl fst.
  by apply login_then_logout_restores.
Qed.

Lemma route_login_then_logout_restores_witness :
  ∃ access refresh redis1,
    fst (Serverless.route_post_users_login env0 5000 alice_ip ∅
           (Some "alice@example.org") (Some "s3cret") db_alice ∅)
    = Some ({| status := 200;
               body := JSession 1 "alice@example.org" access refresh |},
            redis1)
    ∧ refresh ∈ redis1
    ∧ Serverless.post_users_logout env0 60 (Some [Plain "Bearer"; access])
        (Some refresh) redis1
      = ({| status := 200; body := JMessage "Logged out successfully" |},
         ∅).
Proof.
  apply (route_login_then_logout_restores env0 5000 60 alice_ip ∅
           alice_row (Plain "Bearer") db_alice ∅).
  - apply admits_secureLimiter_first.
  - simpl. apply NoDup_singleton.
  - apply list_elem_of_here.
  - discriminate.
  - discriminate.
  - by vm_compute.
  - apply not_elem_of_empty.
Defined.

(** ** Registration *)

(** X7: when secureLimiter has room for the client, registering an email
    that no row holds (every field present, the password confirmed) answers
    200; from then on the credential lookup with the registered email and
    password returns the id the store assigned, and the lookup for any
    other email gives what it gave before. *)
Theorem route_register_then_lookup (env : environment) (clock : Z)
    (ip : string) (store : gmap string client_window)
    (mail pw first last phone : string) (db : database) :
  admits secureLimiter ip clock store →
  mail ≠ "" → pw ≠ "" → first ≠ "" → last ≠ "" → phone ≠ "" →
  (∀ u, u ∈ users db → u_email u ≠ mail) →
  ∃ r db',
    fst (route_post_users_register env clock ip store
           (complete_body mail pw first last phone) db)
    = Some (r, db')
    ∧ status r = 200
    ∧ findUserBasedOnCredentials mail pw db'
      = Fulfilled (Some {| id := next_user_id db; email := mail |})
    ∧ ∀ m p, m ≠ mail →
        findUserBasedOnCredentials m p db'
        = findUserBasedOnCredentials m p db.
Proof.
  intros Hroom Hm Hp Hf Hl Hn Hfresh. unfold route_post_users_register.
  rewrite limited_admits by done. simpl fst.
  by apply register_then_lookup.
Qed.

Lemma route_register_then_lookup_witness :
  ∃ r db',
    fst (route_post_users_register env0 9000 alice_ip ∅
           (complete_body "carol@example.org" "pw" "Carol" "C" "558")
           db_alice)
    = Some (r, db')
    ∧ status r = 200
    ∧ findUserBasedOnCredentials "carol@example.org" "pw" db'
      = Fulfilled (Some {| id := 2; email := "carol@example.org" |})
    ∧ ∀ m p, m ≠ "carol@example.org" →
        findUserBasedOnCredentials m p db'
        = findUserBasedOnCredentials m p db_alice.
Proof.
  apply (route_register_then_lookup env0 9000 alice_ip ∅
           "carol@example.org" "pw" "Carol" "C" "558" db_alice);
    try discriminate.
  - apply admits_secureLimiter_first.
  - intros u Hu. simpl in Hu. apply list_elem_of_singleton in Hu.
    subst u. discriminate.
Defined.

(** X8: when secureLimiter has room for the client, a registration
    request with a required field missing or empty, or with a
    confirm_password that differs from the password, is answered 400 and
    inserts nothing. *)
Theorem route_register_rejects_incomplete (env : environment) (clock : Z)
    (ip : string) (store : gmap string client_window) (b : register_body)
    (db : database) :
  admits secureLimiter ip clock store →
  truthy_string (r_email b) = false ∨ truthy_string (r_password b) = false
  ∨ truthy_string (r_first_name b) = false
  ∨ truthy_string (r_last_name b) = false
  ∨ truthy_string (r_phone_number b) = false
  ∨ truthy_string (r_confirm_password b) = false
  ∨ r_password b ≠ r_confirm_password b →
  ∃ r, fst (route_post_users_register env clock ip store b db)
       = Some (r, db) ∧ status r = 400.
Proof.
  intros Hroom Hbad. unfold route_post_users_register.
  rewrite limited_admits by done. simpl fst.
  by apply register_rejects_incomplete.
Qed.

Lemma route_register_rejects_incomplete_witness :
  ∃ r, fst (route_post_users_register env0 9000 alice_ip ∅
              {| r_email := Some "dave@example.org";
                 r_password := Some "a"; r_first_name := Some "Dave";
                 r_last_name := Some "D"; r_phone_number := None;
                 r_confirm_password := Some "a" |} db_alice)
       = Some (r, db_alice) ∧ status r = 400.
Proof.
  apply route_register_rejects_incomplete.
  - apply admits_secureLimiter_first.
  - do 4 right. left. reflexivity.
Defined.

(** X9: for a client without an open window at secureLimiter: when the
    first row with an email holds another password, a registration with
    that email is answered 200, yet a login of the same client with the
    email and password just registered is answered 401, because the
    credential lookup still reads the older row. *)
Theorem route_register_shadowed_by_older_row (env : environment)
    (clock later : Z) (ip : string) (store : gmap string client_window)
    (mail pw first last phone : string) (db : database) (u0 : user) :
  store !! ip = None →
  mail ≠ "" → pw ≠ "" → first ≠ "" → last ≠ "" → phone ≠ "" →
  head (filter (λ u, u_email u = mail) (users db)) = Some u0 →
  u_password u0 ≠ pw →
  ∃ r db' store',
    route_post_users_register env clock ip store
      (complete_body mail pw first last phone) db
    = (Some (r, db'), store')
    ∧ status r = 200
    ∧ fst (Standalone.route_post_users_login_stateless env later ip store'
             (Some mail) (Some pw) db')
      = Some {| status := 401; body := JMessage "Invalid credentials" |}.
Proof.
  intros Hnone Hm Hp Hf Hl Hn Hhead Hpw.
  destruct (register_shadowed_by_older_row env (seconds clock)
              (seconds later) mail pw first last phone db u0)
    as (r & db' & Hreg & Hst & Hlogin); try done.
  exists r, db'. eexists. unfold route_post_users_register.
  rewrite limited_admits by (apply admits_fresh; [by vm_compute | done]).
  rewrite Hreg. split_and!; [reflexivity | done |].
  unfold Standalone.route_post_users_login_stateless.
  rewrite limited_admits; [done |].
  split; [by vm_compute |]. rewrite lookup_insert_eq.
  right. unfold increment. rewrite Hnone. by vm_compute.
Qed.

Lemma route_register_shadowed_by_older_row_witness :
  ∃ r db' store',
    route_post_users_register env0 9000 alice_ip ∅
      (complete_body "alice@example.org" "other" "Mallory" "M" "557")
      db_alice
    = (Some (r, db'), store')
    ∧ status r = 200
    ∧ fst (Standalone.route_post_users_login_stateless env0 10000 alice_ip
             store' (Some "alice@example.org") (Some "other") db')
      = Some {| status := 401; body := JMessage "Invalid credentials" |}.
Proof.
  apply (route_register_shadowed_by_older_row env0 9000 10000 alice_ip ∅
           "alice@example.org" "other" "Mallory" "M" "557" db_alice
           alice_row); try discriminate; try reflexivity.
Defined.

(** ** Event routes *)

(** X10: when postLimiter has room for the client, GET /events with a
    valid access token answers 200 with exactly the stored rows whose owner
    is the id in the token. *)
Theorem route_get_events_lists_own (env : environment) (clock : Z)
    (ip : string) (store : gmap string client_window)
    (h : option header_value) (c : claims) (db : database) :
  admits postLimiter ip clock store →
  verifyToken env (seconds clock) h = Next c →
  ∃ rows,
    fst (route_get_events env clock ip store h db)
    = Some {| status := 200; body := JEvents rows |}
    ∧ ∀ e, e ∈ rows ↔ e ∈ events db ∧ user_id e = tok_id c.
Proof.
  intros Hroom Hv. unfold route_get_events.
  rewrite limited_admits by done. simpl fst.
  exact (get_events_lists_own env (seconds clock) h c db Hv).
Qed.

Lemma route_get_events_lists_own_witness :
  ∃ rows,
    fst (route_get_events env0 5000 alice_ip ∅ alice_header db_events)
    = Some {| status := 200; body := JEvents rows |}
    ∧ ∀ e, e ∈ rows ↔ e ∈ events db_events ∧ user_id e = 1.
Proof.
  apply (route_get_events_lists_own env0 5000 alice_ip ∅ alice_header
           (Claims 1 "alice@example.org" 0 (Some 86400)) db_events).
  - apply admits_postLimiter_first.
  - reflexivity.
Defined.

(** X11: when postLimiter has room for the client, GET /events/:id with a
    valid access token sends a row only if that row is stored, has the id
    asked for and is owned by the caller. When no row with that id is owned
    by the caller, so also when the id names another user's event, the
    answer is 200 with an empty body. *)
Theorem route_get_events_id_own (env : environment) (clock : Z)
    (ip : string) (store : gmap string client_window)
    (h : option header_value) (c : claims) (eid : Z) (db : database) :
  admits postLimiter ip clock store →
  verifyToken env (seconds clock) h = Next c →
  (∀ r e, fst (route_get_events_id env clock ip store h eid db) = Some r →
     body r = JEvent e →
     e ∈ events db ∧ e_id e = eid ∧ user_id e = tok_id c)
  ∧ ((∀ e, e ∈ events db → e_id e = eid → user_id e ≠ tok_id c) →
     fst (route_get_events_id env clock ip store h eid db)
     = Some {| status := 200; body := JNone |})
  ∧ (∀ e, e ∈ events db → e_id e = eid → user_id e = tok_id c →
     ∃ e', fst (route_get_events_id env clock ip store h eid db)
           = Some {| status := 200; body := JEvent e' |}).
Proof.
  intros Hroom Hv. unfold route_get_events_id.
  rewrite limited_admits by done. simpl fst.
  exact (get_events_id_own env (seconds clock) h c eid db Hv).
Qed.

Lemma route_get_events_id_own_witness :
  fst (route_get_events_id env0 5000 alice_ip ∅ alice_header 8 db_events)
  = Some {| status := 200; body := JNone |}.
Proof.
  refine (proj1 (proj2 (route_get_events_id_own env0 5000 alice_ip ∅
            alice_header (Claims 1 "alice@example.org" 0 (Some 86400)) 8
            db_events _ _)) _).
  - apply admits_postLimiter_first.
  - reflexivity.
  - intros e He Hid. simpl in He.
    apply elem_of_cons in He as [-> | He]; [discriminate |].
    apply list_elem_of_singleton in He. subst e. discriminate.
Defined.

(** X12: when postLimiter has room for the client, DELETE /events/:id with
    a valid access token answers 204 whether or not a row was there to
    delete. It removes exactly the rows with that id owned by the caller:
    every other row, in particular every row of another user, stays, the
    user table is untouched, and a fetch of the id by the caller then finds
    nothing. *)
Theorem route_delete_events_id_effect (env : environment) (clock : Z)
    (ip : string) (store : gmap string client_window)
    (h : option header_value) (c : claims) (eid : Z) (db : database) :
  admits postLimiter ip clock store →
  verifyToken env (seconds clock) h = Next c →
  ∃ db',
    fst (route_delete_events_id env clock ip store h eid db)
    = Some ({| status := 204; body := JNone |}, db')
    ∧ (∀ e, e ∈ events db'
            ↔ e ∈ events db ∧ ¬ (e_id e = eid ∧ user_id e = tok_id c))
    ∧ users db' = users db
    ∧ getEventById eid (tok_id c) db' = Fulfilled None.
Proof.
  intros Hroom Hv. unfold route_delete_events_id.
  rewrite limited_admits by done. simpl fst.
  exact (delete_events_id_effect env (seconds clock) h c eid db Hv).
Qed.

Lemma route_delete_events_id_effect_witness :
  ∃ db',
    fst (route_delete_events_id env0 5000 alice_ip ∅ alice_header 8
           db_events)
    = Some ({| status := 204; body := JNone |}, db')
    ∧ (∀ e, e ∈ events db'
            ↔ e ∈ events db_events ∧ ¬ (e_id e = 8 ∧ user_id e = 1))
    ∧ users db' = users db_events
    ∧ getEventById 8 1 db' = Fulfilled None.
Proof.
  apply (route_delete_events_id_effect env0 5000 alice_ip ∅ alice_header
           (Claims 1 "alice@example.org" 0 (Some 86400)) 8 db_events).
  - apply admits_postLimiter_first.
  - reflexivity.
Defined.

(** X13: when postLimiter has room for the client, POST /events with a
    valid access token answers 201 with the id the store assigned and
    stores the body as a row owned by the caller: the caller's list is the
    old list followed by the new row, every other user's list is unchanged,
    and, when the assigned id was not in use, a fetch of that id by the
    caller returns the new row. *)
Theorem route_post_events_then_read (env : environment) (clock : Z)
    (ip : string) (store : gmap string client_window)
    (h : option header_value) (c : claims) (b : event_body)
    (db : database) :
  admits postLimiter ip clock store →
  verifyToken env (seconds clock) h = Next c →
  ∃ db',
    fst (route_post_events env clock ip store h b db)
    = Some ({| status := 201; body := JId (next_event_id db) |}, db')
    ∧ getEvents (tok_id c) db'
      = Fulfilled (filter (λ e, user_id e = tok_id c) (events db)
                   ++ [created_row b (tok_id c) db])
    ∧ (∀ other, other ≠ tok_id c →
         getEvents other db' = getEvents other db)
    ∧ ((∀ e, e ∈ events db → e_id e ≠ next_event_id db) →
       getEventById (next_event_id db) (tok_id c) db'
       = Fulfilled (Some (created_row b (tok_id c) db))).
Proof.
  intros Hroom Hv. unfold route_post_events.
  rewrite limited_admits by done. simpl fst.
  exact (post_events_then_read env (seconds clock) h c b db Hv).
Qed.

Lemma route_post_events_then_read_witness :
  ∃ db',
    fst (route_post_events env0 5000 alice_ip ∅ alice_header put_body
           db_events)
    = Some ({| status := 201; body := JId 9 |}, db')
    ∧ getEvents 1 db'
      = Fulfilled (filter (λ e, user_id e = 1) (events db_events)
                   ++ [created_row put_body 1 db_events])
    ∧ (∀ other, other ≠ 1 → getEvents other db' = getEvents other db_events)
    ∧ ((∀ e, e ∈ events db_events → e_id e ≠ 9) →
       getEventById 9 1 db'
       = Fulfilled (Some (created_row put_body 1 db_events))).
Proof.
  apply (route_post_events_then_read env0 5000 alice_ip ∅ alice_header
           (Claims 1 "alice@example.org" 0 (Some 86400)) put_body
           db_events).
  - apply admits_postLimiter_first.
  - reflexivity.
Defined.

(** X14: when postLimiter has room for the client, PUT /events/:id with a
    valid access token answers 400 and changes nothing when name, from_date
    or to_date is missing. Otherwise it answers 204, also when no row has
    the id; the rows keep their ids and owners in the same order, every row
    with that id holds the fields of the body, every row with another id is
    unchanged, and the user table is untouched. *)
Theorem route_put_events_id_effect (env : environment) (clock : Z)
    (ip : string) (store : gmap string client_window)
    (h : option header_value) (c : claims) (eid : Z) (b : event_body)
    (db : database) :
  admits postLimiter ip clock store →
  verifyToken env (seconds clock) h = Next c →
  ((b_from_date b = None ∨ b_to_date b = None
    ∨ truthy_string (b_name b) = false) →
   fst (route_put_events_id env clock ip store h eid b db)
   = Some ({| status := 400; body := JMessage "Missing required fields" |},
           db))
  ∧ (is_Some (b_from_date b) → is_Some (b_to_date b) →
     truthy_string (b_name b) = true →
     ∃ db',
       fst (route_put_events_id env clock ip store h eid b db)
       = Some ({| status := 204; body := JNone |}, db')
       ∧ e_id <$> events db' = e_id <$> events db
       ∧ user_id <$> events db' = user_id <$> events db
       ∧ users db' = users db
       ∧ (∀ e, e ∈ events db' → e_id e = eid →
            name e = b_name b ∧ description e = b_description b
            ∧ location e = b_location b ∧ from_date e = b_from_date b
            ∧ to_date e = b_to_date b ∧ contact e = b_contact b)
       ∧ (∀ e, e_id e ≠ eid → e ∈ events db' ↔ e ∈ events db)).
Proof.
  intros Hroom Hv. unfold route_put_events_id.
  rewrite limited_admits by done. simpl fst.
  exact (put_events_id_effect env (seconds clock) h c eid b db Hv).
Qed.

Lemma route_put_events_id_effect_witness :
  fst (route_put_events_id env0 5000 alice_ip ∅ alice_header 7
         {| b_name := Some "Launch"; b_description := None;
            b_location := None; b_from_date := None; b_to_date := Some 1;
            b_contact := None |} db_events)
  = Some ({| status := 400; body := JMessage "Missing required fields" |},
          db_events).
Proof.
  refine (proj1 (route_put_events_id_effect env0 5000 alice_ip ∅
            alice_header (Claims 1 "alice@example.org" 0 (Some 86400)) 7 _
            db_events _ _) _).
  - apply admits_postLimiter_first.
  - reflexivity.
  - by left.
Defined.





(** ** Profile routes *)

(** X16: when postLimiter has room for the client, PATCH /users/:id with
    a valid access token answers 204, also when no row has the id, and
    never 404. Whoever the caller is, every row with that id then holds the
    given value in the column the key names and its old value in every
    other column; rows keep their ids and places, rows with another id are
    unchanged, and the event table is untouched. *)
Theorem route_patch_users_id_effect (env : environment) (clock : Z)
    (ip : string) (store : gmap string client_window)
    (h : option header_value) (c : claims) (uid : Z) (key : column)
    (value : string) (db : database) :
  admits postLimiter ip clock store →
  verifyToken env (seconds clock) h = Next c →
  ∃ db',
    fst (route_patch_users_id env clock ip store h uid key value db)
    = Some ({| status := 204; body := JNone |}, db')
    ∧ events db' = events db
    ∧ length (users db') = length (users db)
    ∧ ∀ (i : nat) u, users db !! i = Some u →
        ∃ u', users db' !! i = Some u'
              ∧ u_id u' = u_id u
              ∧ (u_id u = uid →
                 get_column key u' = value
                 ∧ ∀ k, k ≠ key → get_column k u' = get_column k u)
              ∧ (u_id u ≠ uid → u' = u).
Proof.
  intros Hroom Hv. unfold route_patch_users_id.
  rewrite limited_admits by done. simpl fst.
  unfold patch_users_id. rewrite Hv. simpl. eexists.
  split_and!; [reflexivity | done | cbn [users]; by rewrite length_fmap |].
  intros i u Hu. cbn [users]. rewrite list_lookup_fmap, Hu. simpl.
  eexists. split; [reflexivity |].
  destruct (decide (u_id u = uid)) as [Heq | Hne].
  - rewrite bool_decide_eq_true_2 by done.
    split_and!; [apply set_column_id | | done].
    intros _. split; [by destruct key |].
    intros k Hk. by destruct key, k.
  - rewrite bool_decide_eq_false_2 by done. by split_and!.
Qed.

Lemma route_patch_users_id_effect_witness :
  ∃ db',
    fst (route_patch_users_id env0 5000 alice_ip ∅ alice_header 2
           col_phone_number "000" db_events)
    = Some ({| status := 204; body := JNone |}, db')
    ∧ events db' = events db_events
    ∧ length (users db') = length (users db_events)
    ∧ ∀ (i : nat) u, users db_events !! i = Some u →
        ∃ u', users db' !! i = Some u'
              ∧ u_id u' = u_id u
              ∧ (u_id u = 2 →
                 get_column col_phone_number u' = "000"
                 ∧ ∀ k, k ≠ col_phone_number →
                     get_column k u' = get_column k u)
              ∧ (u_id u ≠ 2 → u' = u).
Proof.
  apply (route_patch_users_id_effect env0 5000 alice_ip ∅ alice_header
           (Claims 1 "alice@example.org" 0 (Some 86400)) 2
           col_phone_number "000" db_events).
  - apply admits_postLimiter_first.
  - reflexivity.
Defined.

(** X17: when postLimiter has room for the client and emails are unique,
    any holder of a valid access token can set the password of any user
    through PATCH /users/:id: afterwards the credential lookup accepts that
    user's email with the new password. *)
Theorem route_patch_password_then_lookup (env : environment) (clock : Z)
    (ip : string) (store : gmap string client_window)
    (h : option header_value) (c : claims) (victim : user) (pw : string)
    (db : database) :
  admits postLimiter ip clock store →
  verifyToken env (seconds clock) h = Next c →
  NoDup (u_email <$> users db) → victim ∈ users db →
  ∃ db',
    fst (route_patch_users_id env clock ip store h (u_id victim)
           col_password pw db)
    = Some ({| status := 204; body := JNone |}, db')
    ∧ findUserBasedOnCredentials (u_email victim) pw db'
      = Fulfilled (Some {| id := u_id victim; email := u_email victim |}).
Proof.
  intros Hroom Hv Hnd Hin. unfold route_patch_users_id.
  rewrite limited_admits by done. simpl fst.
  exact (patch_password_then_lookup env (seconds clock) h c victim pw db
           Hv Hnd Hin).
Qed.

Lemma route_patch_password_then_lookup_witness :
  ∃ db',
    fst (route_patch_users_id env0 5000 alice_ip ∅ alice_header 2
           col_password "owned" db_events)
    = Some ({| status := 204; body := JNone |}, db')
    ∧ findUserBasedOnCredentials "bob@example.org" "owned" db'
      = Fulfilled (Some {| id := 2; email := "bob@example.org" |}).
Proof.
  apply (route_patch_password_then_lookup env0 5000 alice_ip ∅ alice_header
           (Claims 1 "alice@example.org" 0 (Some 86400)) bob_row "owned"
           db_events).
  - apply admits_postLimiter_first.
  - reflexivity.
  - simpl. apply NoDup_cons. split; [| apply NoDup_singleton].
    intros Hin. apply list_elem_of_singleton in Hin. discriminate.
  - right. left.
Defined.

(** ** Password reset, then login *)

(** X20: with emails unique, POST /set-new-password with a reset token
    issued for a stored user less than an hour before, and a non-empty
    password, answers 200; from then on, whenever secureLimiter has room
    for the client, a login with that user's email and the new password is
    answered 200 with the user's id, and a login with the old password, if
    it differs, is answered 401. *)
Theorem route_reset_then_login (env : environment) (issued now : Z)
    (u : user) (newpw : string) (db : database) :
  NoDup (u_email <$> users db) → u ∈ users db →
  u_email u ≠ "" → u_password u ≠ "" → newpw ≠ "" →
  now < issued + 3600 →
  ∃ db',
    Standalone.post_set_new_password env now
      (Some (Standalone.generateResetToken env issued
               {| id := u_id u; email := u_email u |}))
      (Some newpw) db
    = ({| status := 200; body := JString "OK" |}, db')
    ∧ ∀ clock ip store,
        admits secureLimiter ip clock store →
        fst (Standalone.route_post_users_login_stateless env clock ip store
               (Some (u_email u)) (Some newpw) db')
        = Some {| status := 200;
                  body := JSession (u_id u) (u_email u)
                            (generateAccessToken env (seconds clock)
                               {| id := u_id u; email := u_email u |})
                            (generateRefreshToken env (seconds clock)
                               {| id := u_id u; email := u_email u |}) |}
        ∧ (u_password u ≠ newpw →
           fst (Standalone.route_post_users_login_stateless env clock ip
                  store (Some (u_email u)) (Some (u_password u)) db')
           = Some {| status := 401;
                     body := JMessage "Invalid credentials" |}).
Proof.
  intros Hnd Hin Hmail Hold Hnew Hlt.
  destruct (reset_then_login env issued now 0 u newpw db)
    as (db' & Hset & _); try done.
  exists db'. split; [done |]. intros clock ip store Hroom.
  destruct (reset_then_login env issued now (seconds clock) u newpw db)
    as (db'' & Hset' & Hlogin & Hwrong); try done.
  rewrite Hset in Hset'. injection Hset' as <-.
  unfold Standalone.route_post_users_login_stateless.
  rewrite !limited_admits by done. simpl fst. by split.
Qed.

Lemma route_reset_then_login_witness :
  ∃ db',
    Standalone.post_set_new_password env0 10
      (Some (Standalone.generateResetToken env0 0
               {| id := 1; email := "alice@example.org" |}))
      (Some "fresh") db_alice
    = ({| status := 200; body := JString "OK" |}, db')
    ∧ ∀ clock ip store,
        admits secureLimiter ip clock store →
        fst (Standalone.route_post_users_login_stateless env0 clock ip
               store (Some "alice@example.org") (Some "fresh") db')
        = Some {| status := 200;
                  body := JSession 1 "alice@example.org"
                            (generateAccessToken env0 (seconds clock)
                               {| id := 1; email := "alice@example.org" |})
                            (generateRefreshToken env0 (seconds clock)
                               {| id := 1;
                                  email := "alice@example.org" |}) |}
        ∧ ("s3cret" ≠ "fresh" →
           fst (Standalone.route_post_users_login_stateless env0 clock ip
                  store (Some "alice@example.org") (Some "s3cret") db')
           = Some {| status := 401;
                     body := JMessage "Invalid credentials" |}).
Proof.
  apply (route_reset_then_login env0 0 10 alice_row "fresh" db_alice);
    try discriminate; try lia.
  - simpl. apply NoDup_singleton.
  - apply list_elem_of_here.
Defined.

(** ** The date route *)

(** X23: when postLimiter has room for the client, GET /events/date with
    a valid access token sends no response when the date does not parse (or
    is missing, or lies outside the range of Date) and when the instant
    shifted by the server's offset leaves the range of Date, because
    building the query parameter throws; in every other case, however the
    store compares dates, it answers 200 with rows that are all stored rows
    owned by the caller. *)
Theorem route_get_events_date_rows_own (date_matches : Z → Z → bool)
    (env : environment) (clock : Z) (ip : string)
    (store : gmap string client_window) (tz : timezone)
    (h : option header_value) (c : claims) (db : database) :
  admits postLimiter ip clock store →
  verifyToken env (seconds clock) h = Next c →
  (∀ date, Date_getTime tz date = None →
     fst (route_get_events_date date_matches env clock ip store tz h date
            db) = None)
  ∧ (∀ date t, Date_getTime tz date = Some t →
       100000000 * MILISECONDS_IN_A_DAY
       < Z.abs (t - getTimezoneOffset tz t * 60 * 1000) →
       fst (route_get_events_date date_matches env clock ip store tz h
              date db) = None)
  ∧ ∀ date t, Date_getTime tz date = Some t →
      Z.abs (t - getTimezoneOffset tz t * 60 * 1000)
        ≤ 100000000 * MILISECONDS_IN_A_DAY →
      ∃ rows,
        fst (route_get_events_date date_matches env clock ip store tz h
               date db)
        = Some {| status := 200; body := JEvents rows |}
        ∧ ∀ e, e ∈ rows → e ∈ events db ∧ user_id e = tok_id c.
Proof.
  intros Hroom Hv.
  destruct (get_events_date_rows_own date_matches env (seconds clock) tz h
              c db Hv) as (Hnan & Hout & Hrows).
  split_and!.
  - intros date Hd. unfold route_get_events_date.
    rewrite limited_admits by done. by apply Hnan.
  - intros date t Hd Hr. unfold route_get_events_date.
    rewrite limited_admits by done. by eapply Hout.
  - intros date t Hd Hr. unfold route_get_events_date.
    rewrite limited_admits by done. by eapply Hrows.
Qed.

Lemma route_get_events_date_rows_own_witness :
  fst (route_get_events_date date_matches_day env0 5000 alice_ip ∅
         (fixed_zone (-8)) alice_header (DateOnly 100000000) db_events)
  = None.
Proof.
  refine (proj1 (proj2 (route_get_events_date_rows_own date_matches_day
            env0 5000 alice_ip ∅ (fixed_zone (-8)) alice_header
            (Claims 1 "alice@example.org" 0 (Some 86400)) db_events _ _))
            (DateOnly 100000000) (100000000 * MILISECONDS_IN_A_DAY) _ _).
  - apply admits_postLimiter_first.
  - reflexivity.
  - reflexivity.
  - by vm_compute.
Defined.
